(** * downloder.py: the output parser and progress tracker of [DownloadThread]

    A shallow embedding of [DownloadThread.run] and [DownloadThread.stop]
    (src/downloder.py, lines 21-108) and the properties of the specification
    that concern them; and, for further properties of the code, of the
    handlers of [SpotifyDownloaderGUI] (lines 110-312).

    Conventions of the embedding.
    - A Python [str] is a [string]; its characters are the code points
      U+0000 to U+00FF, one per [ascii].  On that range [str.strip], the
      classes [\s] and [\d] of [re], and [int] are as defined below.
    - A Python [int] is a [Z]; [int(...)] of a digit string raises
      [ValueError] beyond the interpreter's limit on the number of digits,
      at its default of 4300.
    - A Python [float] is a binary64 value; true division and multiplication
      round to nearest, ties to even, and what raises in Python is a
      [result] with the message of the exception.
    - A signal emission [self.x.emit(v)] appends a signal to the list of
      emitted signals, in program order.  A signal carries what its slots
      receive: an argument declared [int] in [pyqtSignal] is a C [int] of 32
      bits, to which the Python [int] is converted without an overflow
      check ([c_int]).
    - The two threads meet at line boundaries: a run of the worker is given
      by the order in which lines are read, the child terminates and
      [stop()] is called.

    The definitions come first: characters and [strip], the fragment of
    [re], the float arithmetic of the percentage, the signals, the body of
    the loop ([Tracker]), the loop with [stop] ([Thread]) and the window
    ([Gui]).  They are followed by their evaluation on sample inputs, by
    the lemmas on the patterns, on the percentage, on the tracker and on
    the thread, by the properties C1 to C10, and by further properties of
    the loop, of the thread and of the window. *)

From Stdlib Require Import ZArith Lia List Bool Ascii String DecimalString.
From Stdlib Require Import Sorted.
From Stdlib Require Import Floats.SpecFloat.
Import ListNotations.

#[local] Open Scope string_scope.
#[local] Open Scope list_scope.
#[local] Open Scope Z_scope.

(** ** Characters and [str.strip] *)

Module Chars.

(** [str.isspace] on U+0000..U+00FF, which is also the class [\s]:
    TAB, LF, VT, FF, CR, FS, GS, RS, US, SPACE, NEL, NBSP. *)
Definition is_space (c : ascii) : bool :=
  let n := N_of_ascii c in
  (((9 <=? n) && (n <=? 13)) || ((28 <=? n) && (n <=? 32))
   || (n =? 133) || (n =? 160))%N.

(** The class [\d] on U+0000..U+00FF: the ten ASCII digits. *)
Definition is_digit (c : ascii) : bool :=
  let n := N_of_ascii c in ((48 <=? n) && (n <=? 57))%N.

(** The double quote, U+0022. *)
Definition dquote : ascii := Ascii false true false false false true false false.

(** The class of every character but the double quote. *)
Definition not_quote (c : ascii) : bool :=
  negb (Ascii.eqb c dquote).

(** The class [.] (without DOTALL): any character but LF. *)
Definition dot (c : ascii) : bool :=
  negb (Ascii.eqb c "010"%char).

Definition digit_value (c : ascii) : Z :=
  Z.of_N (N_of_ascii c) - 48.

End Chars.

Import Chars.

Fixpoint lstrip (s : string) : string :=
  match s with
  | String c s' => if is_space c then lstrip s' else s
  | EmptyString => EmptyString
  end.

Fixpoint rstrip (s : string) : string :=
  match s with
  | String c s' =>
      match rstrip s' with
      | EmptyString => if is_space c then EmptyString else String c EmptyString
      | r => String c r
      end
  | EmptyString => EmptyString
  end.

(** [line.strip()] *)
Definition strip (s : string) : string := rstrip (lstrip s).

(** [all_of p s]: every character of [s] is in the class [p]. *)
Fixpoint all_of (p : ascii -> bool) (s : string) : bool :=
  match s with
  | String c s' => p c && all_of p s'
  | EmptyString => true
  end.

(** The result of an expression that may raise: its value, or the message
    of the exception. *)
Inductive result (A : Type) : Type :=
| Ok (a : A)
| Raise (msg : string).

Arguments Ok {A} a.
Arguments Raise {A} msg.

(** [str(n)], as used by the f-strings. *)
Definition str (n : Z) : string := NilZero.string_of_int (Z.to_int n).

(** The number that a string of decimal digits spells. *)
Fixpoint int_acc (acc : Z) (s : string) : Z :=
  match s with
  | String c s' => int_acc (10 * acc + digit_value c) s'
  | EmptyString => acc
  end.

Definition decimal (s : string) : Z := int_acc 0 s.

(** [sys.get_int_max_str_digits()], at its default. *)
Definition int_max_str_digits : Z := 4300.

(** [str(e)] for the [ValueError] of [int(s)] when [s] has [digits]
    digits, more than the limit. *)
Definition exceeds_the_limit (digits : Z) : string :=
  "Exceeds the limit (4300 digits) for integer string conversion: "
  ++ "value has " ++ str digits ++ " digits; "
  ++ "use sys.set_int_max_str_digits() to increase the limit".

(** [int(s)] for a string of decimal digits: the number they spell, or the
    [ValueError] for more digits than the limit, leading zeros included. *)
Definition int (s : string) : result Z :=
  let digits := Z.of_nat (String.length s) in
  if int_max_str_digits <? digits then Raise (exceeds_the_limit digits)
  else Ok (decimal s).

(** [quoted s]: [s] between double quotes. *)
Definition quoted (s : string) : string :=
  String dquote (s ++ String dquote EmptyString).

(** ** The fragment of [re] used by the two patterns

    A backtracking matcher in continuation-passing style: greedy repetition
    tries the longest run first and gives characters back one at a time,
    as [re] does.  [group] is the text captured by group 1. *)

Module Re.

Inductive regex : Type :=
| Lit (s : string)              (* literal text *)
| Plus (cls : ascii -> bool)    (* [c+] for a character class, greedy *)
| Star (cls : ascii -> bool)    (* [c*] for a character class, greedy *)
| Group (r : regex)             (* [( ... )], group 1 *)
| Seq (r1 r2 : regex).

(** [strip_prefix p s]: [s] without its prefix [p], when it has it. *)
Fixpoint strip_prefix (p s : string) : option string :=
  match p with
  | EmptyString => Some s
  | String a p' =>
      match s with
      | String b s' => if Ascii.eqb a b then strip_prefix p' s' else None
      | EmptyString => None
      end
  end.

(** [take n s]: the first [n] characters of [s]. *)
Fixpoint take (n : nat) (s : string) : string :=
  match n, s with
  | S n', String c s' => String c (take n' s')
  | _, _ => EmptyString
  end.

Section Exec.

Context {A : Type}.

(** Zero or more characters of [cls], longest first. *)
Fixpoint greedy (cls : ascii -> bool) (s : string)
         (k : string -> option A) : option A :=
  match s with
  | String c s' =>
      if cls c then
        match greedy cls s' k with
        | Some r => Some r
        | None => k s
        end
      else k s
  | EmptyString => k s
  end.

Fixpoint exec (r : regex) (s : string) (cap : option string)
         (k : string -> option string -> option A) : option A :=
  match r with
  | Lit l =>
      match strip_prefix l s with
      | Some rest => k rest cap
      | None => None
      end
  | Plus cls =>
      match s with
      | String c s' =>
          if cls c then greedy cls s' (fun rest => k rest cap) else None
      | EmptyString => None
      end
  | Star cls => greedy cls s (fun rest => k rest cap)
  | Group r1 =>
      exec r1 s cap
           (fun rest _ =>
              k rest (Some (take (String.length s - String.length rest) s)))
  | Seq r1 r2 =>
      exec r1 s cap (fun rest cap' => exec r2 rest cap' k)
  end.

End Exec.

(** A match object: the text of group 1, if the group took part. *)
Definition match_object : Type := option string.

(** [pattern.match(s)]: a match starting at the first character. *)
Definition match_at (r : regex) (s : string) : option match_object :=
  exec r s None (fun _ cap => Some cap).

(** [pattern.search(s)]: the match at the leftmost position that has one. *)
Fixpoint search (r : regex) (s : string) : option match_object :=
  match match_at r s with
  | Some m => Some m
  | None =>
      match s with
      | String _ s' => search r s'
      | EmptyString => None
      end
  end.

(** [m.group(1)] *)
Definition group1 (m : match_object) : string :=
  match m with
  | Some g => g
  | None => EmptyString
  end.

End Re.

Import Re.

(** [found_songs_pattern], line 62:
    Found, [\s+], group 1 = [\d+], [\s+], "songs in " and [.*]. *)
Definition found_songs_pattern : Re.regex :=
  Seq (Lit "Found")
      (Seq (Plus is_space)
           (Seq (Group (Plus is_digit))
                (Seq (Plus is_space)
                     (Seq (Lit "songs in ") (Star dot))))).

(** [downloaded_pattern], line 63: Downloaded, [\s+], a double quote,
    one or more characters other than the double quote, a double quote
    and a colon. *)
Definition downloaded_pattern : Re.regex :=
  Seq (Lit "Downloaded")
      (Seq (Plus is_space)
           (Seq (Lit (String dquote EmptyString))
                (Seq (Plus not_quote) (Lit (String dquote ":"))))).

(** ** Notions for the statements about the patterns *)

(** [run_of cls s]: [s] is one or more characters of the class [cls]. *)
Definition run_of (cls : ascii -> bool) (s : string) : bool :=
  match s with
  | EmptyString => false
  | String _ _ => all_of cls s
  end.

(** [mem c s]: the character [c] occurs in [s]. *)
Fixpoint mem (c : ascii) (s : string) : bool :=
  match s with
  | EmptyString => false
  | String a s' => Ascii.eqb c a || mem c s'
  end.

(** [starts_outside cls s]: [s] does not start with a character of [cls]. *)
Definition starts_outside (cls : ascii -> bool) (s : string) : bool :=
  match s with
  | EmptyString => true
  | String c _ => negb (cls c)
  end.

(** [no_match_inside r pre s]: no match of [r] in [pre ++ s] starts inside
    [pre]. *)
Fixpoint no_match_inside (r : regex) (pre s : string) : bool :=
  match pre with
  | EmptyString => true
  | String _ pre' =>
      match match_at r (pre ++ s)%string with
      | Some _ => false
      | None => no_match_inside r pre' s
      end
  end.

(** The total-found pattern in the words of the specification: the line
    contains Found, then one or more digits, then "songs in", and white
    space may stand between them. *)
Definition spec_total_found (clean_line ds : string) : Prop :=
  exists pre ws1 ws2 post,
    clean_line
    = (pre ++ "Found" ++ ws1 ++ ds ++ ws2 ++ "songs in" ++ post)%string
    /\ all_of is_space ws1 = true
    /\ run_of is_digit ds = true
    /\ all_of is_space ws2 = true.

(** ** Binary64 arithmetic of [int((downloaded_songs / total_songs) * 100)]

    A finite float is a dyadic number [mant * 2 ^ expo].  Rounding is defined
    on a rational [n / d] directly: the exponent of the result is fixed by
    the binade of [n / d] (or by the subnormal limit), and the mantissa is
    the nearest integer, ties to even. *)

Module Float.

Record float : Type := Finite { mant : Z; expo : Z }.

Definition prec : Z := 53.
Definition emax : Z := 1024.
Definition emin : Z := 3 - emax - prec.

(** The integer nearest to [n / d], ties to even ([0 <= n], [0 < d]). *)
Definition round_half_even (n d : Z) : Z :=
  let q := n / d in
  match 2 * (n mod d) ?= d with
  | Lt => q
  | Gt => q + 1
  | Eq => if Z.even q then q else q + 1
  end.

(** [floor (log2 (n / d))] ([0 < n], [0 < d]). *)
Definition ilog2 (n d : Z) : Z :=
  let k := Z.log2 n - Z.log2 d in
  if n * 2 ^ Z.max 0 (- k) <? d * 2 ^ Z.max 0 k then k - 1 else k.

(** The float nearest to [n / d] ([0 < d]); [None] when it is out of range. *)
Definition round (n d : Z) : option float :=
  if n =? 0 then Some (Finite 0 0)
  else
    let a := Z.abs n in
    let e := Z.max (ilog2 a d - (prec - 1)) emin in
    let m := round_half_even (a * 2 ^ Z.max 0 (- e)) (d * 2 ^ Z.max 0 e) in
    if 2 ^ emax <=? m * 2 ^ e then None
    else Some (Finite (Z.sgn n * m) e).

(** [float(n)] for an [int] that a float holds exactly. *)
Definition of_int (n : Z) : float := Finite n 0.

(** [x * y]; [None] stands for an infinite product. *)
Definition mul (x y : float) : option float :=
  let e := expo x + expo y in
  round (mant x * mant y * 2 ^ Z.max 0 e) (2 ^ Z.max 0 (- e)).

(** [int(x)]: truncation towards zero. *)
Definition trunc (x : float) : Z :=
  Z.quot (mant x * 2 ^ Z.max 0 (expo x)) (2 ^ Z.max 0 (- expo x)).

(** The same value in the representation of the Standard Library. *)
Definition to_spec (x : float) : spec_float :=
  binary_normalize prec emax (mant x) (expo x) false.

End Float.

(** [a / b] on [int]s: the correctly rounded quotient, or an exception. *)
Definition truediv (a b : Z) : result Float.float :=
  if b =? 0 then Raise "division by zero"
  else
    match Float.round (Z.sgn b * a) (Z.abs b) with
    | Some q => Ok q
    | None => Raise "integer division result too large for a float"
    end.

(** [int((downloaded_songs / total_songs) * 100)], line 88. *)
Definition progress_percentage (downloaded_songs total_songs : Z) : result Z :=
  match truediv downloaded_songs total_songs with
  | Raise msg => Raise msg
  | Ok q =>
      match Float.mul q (Float.of_int 100) with
      | Some p => Ok (Float.trunc p)
      | None => Raise "cannot convert float infinity to integer"
      end
  end.

(** ** The signals of [DownloadThread] (lines 22-27)

    [progress], [total_songs_signal] and [downloaded_songs_signal] are
    declared with [int]: what they carry is a C [int] of 32 bits. *)

(** The conversion of a Python [int] to the C [int] of a signal: the value
    modulo [2 ^ 32], in the range from [- 2 ^ 31] to [2 ^ 31 - 1]. *)
Definition c_int (v : Z) : Z := (v + 2 ^ 31) mod 2 ^ 32 - 2 ^ 31.

Inductive signal : Type :=
| progress (value : Z) (status : string)
| finished
| error (msg : string)
| log (msg : string)
| total_songs_signal (n : Z)
| downloaded_songs_signal (n : Z).

Definition is_log (s : signal) : bool :=
  match s with log _ => true | _ => false end.

Definition is_progress (s : signal) : bool :=
  match s with progress _ _ => true | _ => false end.

Definition is_total_songs_signal (s : signal) : bool :=
  match s with total_songs_signal _ => true | _ => false end.

Definition is_downloaded_songs_signal (s : signal) : bool :=
  match s with downloaded_songs_signal _ => true | _ => false end.

(** [finished] and [error]: the signals that report how a run ended. *)
Definition is_outcome (s : signal) : bool :=
  match s with finished | error _ => true | _ => false end.

(** ** The tracker: the body of the loop of [run] (lines 57-90) *)

Module Tracker.

(** The local variables of [run] that the loop updates. *)
Record locals : Type := Locals {
  total_songs : Z;
  downloaded_songs : Z;
  total_songs_set : bool
}.

(** Lines 57-59. *)
Definition fresh : locals :=
  {| total_songs := 0; downloaded_songs := 0; total_songs_set := false |}.

(** What a stretch of the loop did: the locals it left, the signals it
    emitted, and the exception that ended it, if one was raised. *)
Record outcome : Type := Outcome {
  after : locals;
  emitted : list signal;
  raised : option string
}.

(** Lines 74-75: the total-found pattern is tried only while the total is
    not set. *)
Definition found_songs_match (st : locals) (clean_line : string)
  : option match_object :=
  if total_songs_set st then None else search found_songs_pattern clean_line.

(** Lines 69-90: one iteration, past the check of [_is_running]. *)
Definition on_line (st : locals) (line : string) : outcome :=
  let clean_line := strip line in
  match found_songs_match st clean_line with
  | Some m =>
      match int (group1 m) with
      | Ok total =>
          {| after := {| total_songs := total;
                         downloaded_songs := downloaded_songs st;
                         total_songs_set := true |};
             emitted := [log clean_line; total_songs_signal (c_int total);
                         log ("Total songs found: " ++ str total)];
             raised := None |}
      | Raise e =>
          {| after := st; emitted := [log clean_line]; raised := Some e |}
      end
  | None =>
      match search downloaded_pattern clean_line with
      | Some _ =>
          let downloaded := downloaded_songs st + 1 in
          let st' := {| total_songs := total_songs st;
                        downloaded_songs := downloaded;
                        total_songs_set := total_songs_set st |} in
          let counted :=
            [log clean_line; downloaded_songs_signal (c_int downloaded)] in
          if 0 <? total_songs st then
            match progress_percentage downloaded (total_songs st) with
            | Ok progress_percentage =>
                let status : string :=
                  ("Downloading " ++ str downloaded ++ "/"
                                  ++ str (total_songs st))%string in
                {| after := st';
                   emitted :=
                     counted ++ [progress (c_int progress_percentage) status];
                   raised := None |}
            | Raise e =>
                {| after := st'; emitted := counted; raised := Some e |}
            end
          else {| after := st'; emitted := counted; raised := None |}
      | None =>
          {| after := st; emitted := [log clean_line]; raised := None |}
      end
  end.

(** The loop over the lines it consumes while [_is_running] stays set; an
    exception leaves the loop. *)
Fixpoint on_lines (st : locals) (lines : list string) : outcome :=
  match lines with
  | [] => {| after := st; emitted := []; raised := None |}
  | line :: rest =>
      let o := on_line st line in
      match raised o with
      | Some _ => o
      | None =>
          let o' := on_lines (after o) rest in
          {| after := after o';
             emitted := emitted o ++ emitted o';
             raised := raised o' |}
      end
  end.

(** The lines that make the loop count a download and those that may set the
    total, as the patterns decide on the stripped line. *)
Definition matches_downloaded (line : string) : bool :=
  match search downloaded_pattern (strip line) with
  | Some _ => true
  | None => false
  end.

Definition matches_found (line : string) : bool :=
  match search found_songs_pattern (strip line) with
  | Some _ => true
  | None => false
  end.

(** [int(found_songs_match.group(1))] for a line that matches. *)
Definition found_total (line : string) : result Z :=
  match search found_songs_pattern (strip line) with
  | Some m => int (group1 m)
  | None => Ok 0
  end.

End Tracker.

Import Tracker.

Definition playlist_line : string :=
  "Found 23 songs in " ++ quoted "My Playlist" ++ " (My Playlist)".

Definition song_line : string :=
  "Downloaded " ++ quoted "Artist - Title" ++ ":".

(** A line that matches both patterns. *)
Definition playlist_song_line : string :=
  "Found 3 songs in Downloaded " ++ quoted "x" ++ ":".

Definition empty_playlist_line : string := "Found 0 songs in x".

(** The number of lines that match the downloaded pattern. *)
Definition count_downloaded (lines : list string) : Z :=
  Z.of_nat (List.length (filter matches_downloaded lines)).

(** The lines without the one that sets the total: the first that matches
    the total-found pattern. *)
Fixpoint without_total_line (lines : list string) : list string :=
  match lines with
  | [] => []
  | line :: rest =>
      if matches_found line then rest else line :: without_total_line rest
  end.

(** The total that the first line matching the total-found pattern gives,
    when there is such a line and [int] does not raise on its digits. *)
Definition first_total (lines : list string) : option Z :=
  match find matches_found lines with
  | Some l0 =>
      match found_total l0 with
      | Ok total => Some total
      | Raise _ => None
      end
  | None => None
  end.

(** [count_up d k]: the [k] integers that follow [d]. *)
Fixpoint count_up (d : Z) (k : nat) : list Z :=
  match k with
  | O => []
  | S k' => (d + 1) :: count_up (d + 1) k'
  end.

(** A total-found line with [k] zeros for its digits. *)
Definition zeros_line (k : nat) : string :=
  "Found " ++ string_of_list_ascii (repeat "0"%char k) ++ " songs in x".

(** ** The thread: [run] from the loop on, and [stop] (lines 65-108)

    [stop] runs in the thread of the caller while [run] is in the worker.
    What the worker can tell apart is the order of three kinds of events,
    and a run is given by the events that happen while it is in the loop,
    up to the end of the child's output, and those that happen while it is
    blocked in [self.process.wait()]. *)

Module Thread.

Inductive event : Type :=
| Line (line : string)   (* the loop reads the next line of the child *)
| Exit (status : Z)      (* the child terminates by itself *)
| Stop.                  (* the caller's thread runs [stop()] *)

(** The fields of [self] that change during a run, and the exit status of
    the child once it has terminated, which is what [poll()] returns. *)
Record state : Type := State {
  _is_running : bool;
  process : bool;          (* [self.process] is a [Popen], not [None] *)
  child : option Z
}.

(** Lines 35 and 49: the thread once the child is started. *)
Definition started : state :=
  {| _is_running := true; process := true; child := None |}.

(** The status of a child that [terminate()] and [kill()] ended. *)
Definition killed : Z := -9.

Definition exit (self : state) (status : Z) : state :=
  match child self with
  | Some _ => self
  | None => {| _is_running := _is_running self; process := process self;
               child := Some status |}
  end.

(** Lines 102-108. *)
Definition stop (self : state) : state * list signal :=
  match process self, child self with
  | true, None =>
      ({| _is_running := false; process := false; child := Some killed |},
       [finished])
  | _, _ =>
      ({| _is_running := false; process := process self;
          child := child self |}, [])
  end.

(** Lines 94-98. *)
Definition report (self : state) (returncode : Z) : list signal :=
  if _is_running self then
    if returncode =? 0 then [finished]
    else [error ("An error occurred during the download process. "
                 ++ "Please check the log for details.")]
  else [].

(** Lines 92-98, once [self.process] is read: the worker is blocked until the
    child has terminated, and reports after the events of [env]. *)
Fixpoint wait (self : state) (env : list event) : list signal :=
  match env with
  | [] =>
      match child self with
      | Some returncode => report self returncode
      | None => []
      end
  | Line _ :: env' => wait self env'
  | Exit status :: env' => wait (exit self status) env'
  | Stop :: env' =>
      let (self', out) := stop self in out ++ wait self' env'
  end.

(** [str(e)] for the [AttributeError] of line 92 when [self.process] is
    [None]. *)
Definition none_has_no_wait : string :=
  "'NoneType' object has no attribute 'wait'".

(** Line 92 and the handler of lines 99-100 for it. *)
Definition after_loop (self : state) (env : list event) : list signal :=
  if process self then wait self env
  else [error none_has_no_wait].

(** Lines 65-100: the loop on the events [env], then the wait on [later]. *)
Fixpoint loop (self : state) (st : locals) (env later : list event)
  : list signal :=
  match env with
  | [] => after_loop self later
  | Line line :: env' =>
      if _is_running self then
        let o := on_line st line in
        emitted o ++
        match raised o with
        | Some e => [error e]
        | None => loop self (after o) env' later
        end
      else after_loop self (env' ++ later)
  | Exit status :: env' => loop (exit self status) st env' later
  | Stop :: env' =>
      let (self', out) := stop self in out ++ loop self' st env' later
  end.

Definition run (during_loop during_wait : list event) : list signal :=
  loop started fresh during_loop during_wait.

End Thread.

(** ** Notions for the further properties *)

(** [ends_outside cls s]: [s] does not end with a character of [cls]. *)
Fixpoint ends_outside (cls : ascii -> bool) (s : string) : bool :=
  match s with
  | EmptyString => true
  | String c EmptyString => negb (cls c)
  | String _ s' => ends_outside cls s'
  end.

(** The counts that the [downloaded_songs_signal]s of a list carry. *)
Definition downloaded_values (l : list signal) : list Z :=
  flat_map (fun s => match s with
                     | downloaded_songs_signal n => [n]
                     | _ => []
                     end) l.

Definition is_finished (s : signal) : bool :=
  match s with finished => true | _ => false end.

Definition is_error (s : signal) : bool :=
  match s with error _ => true | _ => false end.

(** The text of line 89. *)
Definition status_text (downloaded total : Z) : string :=
  "Downloading " ++ str downloaded ++ "/" ++ str total.

(** The message of line 98. *)
Definition download_failed : string :=
  "An error occurred during the download process. "
  ++ "Please check the log for details.".




(** The percentages that the [progress] signals of a list carry. *)
Definition progress_values (l : list signal) : list Z :=
  flat_map (fun s => match s with progress p _ => [p] | _ => [] end) l.

(** ** The window: [SpotifyDownloaderGUI] (lines 110-312)

    A widget is what the handlers read and write of it: the text of a line
    edit or of a label, whether a button is enabled, the value of the
    progress bar, the texts appended to the log view since it was cleared.
    A message box is an item of the list of dialogs that a handler shows,
    in the order in which it shows them; what the user answers, what the
    file system and the search for [spotdl] say, and whether the thread
    still runs, are arguments.  Of Qt this takes: a button is enabled until
    it is disabled; a progress bar has the range 0 to 100 and ignores a
    value outside it; a signal emitted in the thread of the window calls
    its slot at once. *)

Module Gui.

Inductive dialog : Type :=
| warning (title text : string)
| critical (title text : string)
| information (title text : string)
| question (title text : string).

(** The arguments of [DownloadThread(url, output_dir, concurrent_downloads)]. *)
Record job : Type := Job {
  url : string;
  output_dir : string;
  concurrent_downloads : Z
}.

Record window : Type := Window {
  url_entry : string;
  output_entry : string;
  download_button : bool;        (* enabled *)
  cancel_button : bool;          (* enabled *)
  progress_bar : Z;
  status_label : string;
  total_songs_label : string;
  downloaded_songs_label : string;
  log_view : list string;
  download_thread : option job   (* [None], or the thread last created *)
}.

(** Lines 111-192: the window as [__init__] leaves it.  A button is enabled
    unless it is disabled. *)
Definition initUI : window :=
  {| url_entry := EmptyString;
     output_entry := EmptyString;
     download_button := true;
     cancel_button := false;
     progress_bar := 0;
     status_label := EmptyString;
     total_songs_label := "Total Songs: 0";
     downloaded_songs_label := "Downloaded Songs: 0";
     log_view := [];
     download_thread := None |}.

Definition set_url_entry (w : window) (text : string) : window :=
  {| url_entry := text; output_entry := output_entry w;
     download_button := download_button w; cancel_button := cancel_button w;
     progress_bar := progress_bar w; status_label := status_label w;
     total_songs_label := total_songs_label w;
     downloaded_songs_label := downloaded_songs_label w;
     log_view := log_view w; download_thread := download_thread w |}.

Definition set_output_entry (w : window) (text : string) : window :=
  {| url_entry := url_entry w; output_entry := text;
     download_button := download_button w; cancel_button := cancel_button w;
     progress_bar := progress_bar w; status_label := status_label w;
     total_songs_label := total_songs_label w;
     downloaded_songs_label := downloaded_songs_label w;
     log_view := log_view w; download_thread := download_thread w |}.

(** [download_button.setEnabled(d)] and [cancel_button.setEnabled(c)]. *)
Definition set_buttons (w : window) (d c : bool) : window :=
  {| url_entry := url_entry w; output_entry := output_entry w;
     download_button := d; cancel_button := c;
     progress_bar := progress_bar w; status_label := status_label w;
     total_songs_label := total_songs_label w;
     downloaded_songs_label := downloaded_songs_label w;
     log_view := log_view w; download_thread := download_thread w |}.

(** [QProgressBar.setValue] with the range 0 to 100 of a new progress bar: a
    value outside the range is ignored. *)
Definition setValue (w : window) (value : Z) : window :=
  {| url_entry := url_entry w; output_entry := output_entry w;
     download_button := download_button w; cancel_button := cancel_button w;
     progress_bar :=
       if (value <? 0) || (100 <? value) then progress_bar w else value;
     status_label := status_label w;
     total_songs_label := total_songs_label w;
     downloaded_songs_label := downloaded_songs_label w;
     log_view := log_view w; download_thread := download_thread w |}.

Definition set_status_label (w : window) (text : string) : window :=
  {| url_entry := url_entry w; output_entry := output_entry w;
     download_button := download_button w; cancel_button := cancel_button w;
     progress_bar := progress_bar w; status_label := text;
     total_songs_label := total_songs_label w;
     downloaded_songs_label := downloaded_songs_label w;
     log_view := log_view w; download_thread := download_thread w |}.

Definition set_total_songs_label (w : window) (text : string) : window :=
  {| url_entry := url_entry w; output_entry := output_entry w;
     download_button := download_button w; cancel_button := cancel_button w;
     progress_bar := progress_bar w; status_label := status_label w;
     total_songs_label := text;
     downloaded_songs_label := downloaded_songs_label w;
     log_view := log_view w; download_thread := download_thread w |}.

Definition set_downloaded_songs_label (w : window) (text : string) : window :=
  {| url_entry := url_entry w; output_entry := output_entry w;
     download_button := download_button w; cancel_button := cancel_button w;
     progress_bar := progress_bar w; status_label := status_label w;
     total_songs_label := total_songs_label w;
     downloaded_songs_label := text;
     log_view := log_view w; download_thread := download_thread w |}.

Definition set_log_view (w : window) (paragraphs : list string) : window :=
  {| url_entry := url_entry w; output_entry := output_entry w;
     download_button := download_button w; cancel_button := cancel_button w;
     progress_bar := progress_bar w; status_label := status_label w;
     total_songs_label := total_songs_label w;
     downloaded_songs_label := downloaded_songs_label w;
     log_view := paragraphs; download_thread := download_thread w |}.

Definition set_download_thread (w : window) (t : option job) : window :=
  {| url_entry := url_entry w; output_entry := output_entry w;
     download_button := download_button w; cancel_button := cancel_button w;
     progress_bar := progress_bar w; status_label := status_label w;
     total_songs_label := total_songs_label w;
     downloaded_songs_label := downloaded_songs_label w;
     log_view := log_view w; download_thread := t |}.

(** [self.log_view.append(text)] *)
Definition log_view_append (w : window) (text : string) : window :=
  set_log_view w (log_view w ++ [text]).

(** Lines 194-197; [directory] is what the dialog returns, empty when it is
    dismissed. *)
Definition browse_directory (directory : string) (w : window) : window :=
  match directory with
  | EmptyString => w
  | _ => set_output_entry w directory
  end.

(** Lines 199-206; [spotdl] is the output of [spotdl --version], or [None]
    when the command is not found or fails. *)
Definition is_spotdl_installed (spotdl : option string) (w : window)
  : window * bool :=
  match spotdl with
  | Some stdout =>
      (log_view_append w ("spotdl is installed: " ++ strip stdout), true)
  | None => (w, false)
  end.

(** Lines 208-247; [isdir] is [os.path.isdir].  The third component is the
    thread that is started, if one is. *)
Definition start_download (isdir : string -> bool) (spotdl : option string)
           (w : window) : window * list dialog * option job :=
  let url := strip (url_entry w) in
  let output_dir := strip (output_entry w) in
  match url with
  | EmptyString =>
      (w, [warning "Input Error" "Please enter a Spotify playlist URL."],
       None)
  | _ =>
      match output_dir with
      | EmptyString =>
          (w, [warning "Input Error" "Please select an output directory."],
           None)
      | _ =>
          if negb (isdir output_dir) then
            (w, [warning "Directory Error"
                         "The selected output directory does not exist."],
             None)
          else
            let (w, installed) := is_spotdl_installed spotdl w in
            if negb installed then
              (log_view_append
                 w "Error: spotdl is not installed or not found in PATH.",
               [critical "Error"
                         "spotdl is not installed or not found in PATH."],
               None)
            else
              let w := set_buttons w false true in
              let w := setValue w 0 in
              let w := set_status_label w "Starting download..." in
              let w := set_log_view w [] in
              let w := set_total_songs_label w "Total Songs: 0" in
              let w := set_downloaded_songs_label w "Downloaded Songs: 0" in
              let concurrent_downloads := 5 in
              let thread := {| url := url; output_dir := output_dir;
                               concurrent_downloads :=
                                 concurrent_downloads |} in
              (set_download_thread w (Some thread), [], Some thread)
      end
  end.

(** Lines 249-251. *)
Definition update_progress (value : Z) (status : string) (w : window)
  : window :=
  set_status_label (setValue w value) status.

(** Lines 253-254. *)
Definition update_total_songs (total : Z) (w : window) : window :=
  set_total_songs_label w ("Total Songs: " ++ str total).

(** Lines 256-257. *)
Definition update_downloaded_songs (downloaded : Z) (w : window) : window :=
  set_downloaded_songs_label w ("Downloaded Songs: " ++ str downloaded).

(** Lines 259-263. *)
Definition download_complete (w : window) : window * list dialog :=
  (set_buttons (set_status_label w "Download complete!") true false,
   [information "Success" "Playlist downloaded successfully!"]).

(** Lines 265-270. *)
Definition download_error (error_message : string) (w : window)
  : window * list dialog :=
  let w := set_status_label w "Download failed." in
  let w := set_buttons w true false in
  let w := log_view_append w ("Error: " ++ error_message) in
  (w, [critical "Error" ("An error occurred: " ++ error_message)]).

(** Lines 272-278, the text of the view. *)
Definition append_log (message : string) (w : window) : window :=
  log_view_append w message.

(** Lines 241-246: the slot that each signal of the thread is connected
    to. *)
Definition deliver (w : window) (s : signal) : window * list dialog :=
  match s with
  | progress value status => (update_progress value status w, [])
  | finished => download_complete w
  | error msg => download_error msg w
  | log msg => (append_log msg w, [])
  | total_songs_signal n => (update_total_songs n w, [])
  | downloaded_songs_signal n => (update_downloaded_songs n w, [])
  end.

(** The signals of a list, delivered in their order. *)
Fixpoint deliver_all (w : window) (l : list signal) : window * list dialog :=
  match l with
  | [] => (w, [])
  | s :: l' =>
      let (w1, d1) := deliver w s in
      let (w2, d2) := deliver_all w1 l' in
      (w2, d1 ++ d2)
  end.

(** Lines 280-295.  [isRunning] is what [QThread.isRunning] answers and
    [yes] whether the user confirms; [thread] is the state of the thread,
    on which [stop] is called.  [stop] runs in the thread of the window,
    where the slot of what it emits is called at once. *)
Definition cancel_download (isRunning yes : bool) (thread : Thread.state)
           (w : window) : window * Thread.state * list dialog :=
  match download_thread w with
  | Some _ =>
      if isRunning then
        let ask := question "Cancel Download"
                            "Are you sure you want to cancel the download?" in
        if yes then
          let (thread, out) := Thread.stop thread in
          let (w, shown) := deliver_all w out in
          let w := set_status_label w "Download cancelled." in
          let w := set_buttons w true false in
          let w := log_view_append w "Download has been cancelled." in
          (w, thread,
           ask :: shown
               ++ [information "Cancelled" "Download has been cancelled."])
        else (w, thread, [ask])
      else (w, thread, [])
  | None => (w, thread, [])
  end.

(** Lines 297-312; the last component is whether the event is accepted. *)
Definition closeEvent (isRunning yes : bool) (thread : Thread.state)
           (w : window) : window * Thread.state * list dialog * bool :=
  match download_thread w with
  | Some _ =>
      if isRunning then
        let ask :=
          question "Exit"
                   "A download is in progress. Are you sure you want to exit?"
        in
        if yes then
          let (thread, out) := Thread.stop thread in
          let (w, shown) := deliver_all w out in
          (w, thread, ask :: shown, true)
        else (w, thread, [ask], false)
      else (w, thread, [], true)
  | None => (w, thread, [], true)
  end.

(** What can happen to the window: the user types, browses, clicks or
    closes, and the signals of the thread arrive. *)
Inductive action : Type :=
| Type_url (text : string)
| Type_output (text : string)
| Browse (directory : string)
| Click_download (isdir : string -> bool) (spotdl : option string)
| Click_cancel (isRunning yes : bool) (thread : Thread.state)
| Close (isRunning yes : bool) (thread : Thread.state)
| Signal (s : signal).

Definition act (w : window) (a : action) : window :=
  match a with
  | Type_url text => set_url_entry w text
  | Type_output text => set_output_entry w text
  | Browse directory => browse_directory directory w
  | Click_download isdir spotdl => fst (fst (start_download isdir spotdl w))
  | Click_cancel isRunning yes thread =>
      fst (fst (cancel_download isRunning yes thread w))
  | Close isRunning yes thread =>
      fst (fst (fst (closeEvent isRunning yes thread w)))
  | Signal s => fst (deliver w s)
  end.

Definition acts (w : window) (l : list action) : window :=
  fold_left act l w.

End Gui.

(** The texts that the [log] signals of a list carry. *)
Definition log_texts (l : list signal) : list string :=
  flat_map (fun s => match s with log msg => [msg] | _ => [] end) l.

(** The labels of [w] show the counters of [st], as the signals carry
    them. *)
Definition shows (w : Gui.window) (st : locals) : Prop :=
  Gui.total_songs_label w
  = ("Total Songs: " ++ str (c_int (total_songs st)))%string
  /\ Gui.downloaded_songs_label w
     = ("Downloaded Songs: " ++ str (c_int (downloaded_songs st)))%string.

(** What holds of the window at any time. *)
Definition window_ok (w : Gui.window) : Prop :=
  Gui.download_button w = negb (Gui.cancel_button w)
  /\ 0 <= Gui.progress_bar w <= 100
  /\ (Gui.cancel_button w = true -> Gui.download_thread w <> None).

(** A file system with one directory. *)
Definition exists_dir (d : string) : bool := String.eqb d "/music".

(** * Evaluation of the definitions on sample inputs *)

Example found_songs_pattern_ex1 :
  search found_songs_pattern
         ("Found 23 songs in " ++ quoted "My Playlist" ++ " (My Playlist)")
  = Some (Some "23").
Proof. reflexivity. Qed.

Example found_songs_pattern_ex2 :
  search found_songs_pattern "Found 23 songs in" = None.
Proof. reflexivity. Qed.

Example found_songs_pattern_ex3 :
  search found_songs_pattern "x Found 1 songs in Found 22 songs in y"
  = Some (Some "1").
Proof. reflexivity. Qed.

Example downloaded_pattern_ex1 :
  search downloaded_pattern ("Downloaded " ++ quoted "Artist - Title" ++ ":")
  = Some None.
Proof. reflexivity. Qed.

Example downloaded_pattern_ex2 :
  search downloaded_pattern ("Downloaded " ++ quoted EmptyString ++ ":") = None.
Proof. reflexivity. Qed.

Example strip_ex1 : strip "  Found 2 songs in  x  " = "Found 2 songs in  x".
Proof. reflexivity. Qed.

Example int_ex1 : int "0023" = Ok 23.
Proof. reflexivity. Qed.

Example int_ex2 :
  int (string_of_list_ascii (repeat "0"%char 4300)) = Ok 0
  /\ int (string_of_list_ascii (repeat "0"%char 4301))
     = Raise (exceeds_the_limit 4301).
Proof. split; vm_compute; reflexivity. Qed.

Example c_int_ex1 :
  c_int 23 = 23 /\ c_int (2 ^ 31 - 1) = 2 ^ 31 - 1
  /\ c_int (2 ^ 31) = - 2 ^ 31 /\ c_int 2147483700 = -2147483596
  /\ c_int (-1) = -1 /\ c_int (2 ^ 32) = 0.
Proof. repeat split. Qed.

Example str_ex1 : str 23 = "23" /\ str 0 = "0".
Proof. split; reflexivity. Qed.

Example progress_percentage_4_10 : progress_percentage 4 10 = Ok 40.
Proof. vm_compute; reflexivity. Qed.

Example progress_percentage_3_5 : progress_percentage 3 5 = Ok 60.
Proof. vm_compute; reflexivity. Qed.

Example progress_percentage_29_100 : progress_percentage 29 100 = Ok 28.
Proof. vm_compute; reflexivity. Qed.

(** The rounding above against the Standard Library's specification of
    IEEE 754 division and multiplication, on the operands of the examples. *)
Example round_agrees_SFdiv :
  option_map Float.to_spec (Float.round 29 100)
  = Some (SFdiv 53 1024 (Float.to_spec (Float.of_int 29))
                (Float.to_spec (Float.of_int 100))).
Proof. vm_compute; reflexivity. Qed.

Example mul_agrees_SFmul :
  match Float.round 29 100 with
  | Some q =>
      option_map Float.to_spec (Float.mul q (Float.of_int 100))
      = Some (SFmul 53 1024 (Float.to_spec q)
                    (Float.to_spec (Float.of_int 100)))
  | None => False
  end.
Proof. vm_compute; reflexivity. Qed.

Example on_line_playlist :
  on_line fresh playlist_line
  = {| after := {| total_songs := 23; downloaded_songs := 0;
                   total_songs_set := true |};
       emitted := [log playlist_line; total_songs_signal 23;
                   log "Total songs found: 23"];
       raised := None |}.
Proof. reflexivity. Qed.

Example on_line_song :
  on_line {| total_songs := 5; downloaded_songs := 2; total_songs_set := true |}
          song_line
  = {| after := {| total_songs := 5; downloaded_songs := 3;
                   total_songs_set := true |};
       emitted := [log song_line; downloaded_songs_signal 3;
                   progress 60 "Downloading 3/5"];
       raised := None |}.
Proof. reflexivity. Qed.

(** * The two patterns, and the lines they match *)

#[local] Open Scope string_scope.

(** First, texts of the expected form are matched. *)
Lemma strip_prefix_app p s : strip_prefix p (p ++ s) = Some s.
Proof.
  induction p as [|a p IH]; cbn; [ reflexivity | ].
  now rewrite Ascii.eqb_refl.
Qed.

Lemma length_app_string s1 s2 :
  String.length (s1 ++ s2) = (String.length s1 + String.length s2)%nat.
Proof. induction s1; cbn; congruence. Qed.

Lemma take_app n s1 s2 :
  n = String.length s1 -> take n (s1 ++ s2) = s1.
Proof.
  intros ->. induction s1 as [|a s1 IH]; cbn.
  - now destruct s2.
  - now rewrite IH.
Qed.

Lemma take_group s1 s2 :
  take (String.length (s1 ++ s2) - String.length s2) (s1 ++ s2) = s1.
Proof. apply take_app. rewrite length_app_string. lia. Qed.

Section Greedy.

Context {A : Type}.

Lemma greedy_run cls run rest (k : string -> option A) r :
  all_of cls run = true ->
  starts_outside cls rest = true ->
  k rest = Some r ->
  greedy cls (run ++ rest) k = Some r.
Proof.
  intros Hall Hout Hk. induction run as [|a run IH]; cbn in *.
  - destruct rest as [|c rest]; cbn in *; [ assumption | ].
    destruct (cls c); [ discriminate | assumption ].
  - apply andb_prop in Hall as [-> Hall]. now rewrite IH.
Qed.

Lemma greedy_total cls s (k : string -> option A) r :
  (forall rest, k rest = Some r) -> greedy cls s k = Some r.
Proof.
  intros Hk. induction s as [|c s IH]; cbn; [ apply Hk | ].
  destruct (cls c); [ now rewrite IH | apply Hk ].
Qed.

Lemma exec_plus_run cls run rest cap
      (k : string -> option string -> option A) r :
  run_of cls run = true ->
  starts_outside cls rest = true ->
  k rest cap = Some r ->
  exec (Plus cls) (run ++ rest) cap k = Some r.
Proof.
  intros Hrun Hout Hk. destruct run as [|a run]; [ discriminate | ].
  cbn in *. apply andb_prop in Hrun as [-> Hall].
  now apply greedy_run.
Qed.

Lemma exec_lit l s cap (k : string -> option string -> option A) :
  exec (Lit l) (l ++ s) cap k = k s cap.
Proof. cbn. now rewrite strip_prefix_app. Qed.

Lemma exec_seq r1 r2 s cap (k : string -> option string -> option A) :
  exec (Seq r1 r2) s cap k
  = exec r1 s cap (fun rest cap' => exec r2 rest cap' k).
Proof. reflexivity. Qed.

Lemma exec_group r s cap (k : string -> option string -> option A) :
  exec (Group r) s cap k
  = exec r s cap
         (fun rest _ =>
            k rest (Some (take (String.length s - String.length rest) s))).
Proof. reflexivity. Qed.

Lemma exec_star_total cls s cap
      (k : string -> option string -> option A) r :
  (forall rest, k rest cap = Some r) -> exec (Star cls) s cap k = Some r.
Proof. intros Hk. cbn. now apply greedy_total. Qed.

End Greedy.

(** No character is both a digit and white space. *)
Lemma is_digit_not_space c : is_digit c = true -> is_space c = false.
Proof.
  destruct c as [[] [] [] [] [] [] [] []]; intros H;
    solve [ reflexivity | discriminate H ].
Qed.

Lemma is_space_not_digit c : is_space c = true -> is_digit c = false.
Proof.
  destruct (is_digit c) eqn:E; [ | reflexivity ].
  rewrite (is_digit_not_space c E). discriminate.
Qed.

Lemma run_starts_outside cls cls' run rest :
  (forall c, cls c = true -> cls' c = false) ->
  run_of cls run = true ->
  starts_outside cls' (run ++ rest) = true.
Proof.
  intros Hc Hrun. destruct run as [|a run]; [ discriminate | ].
  cbn in *. apply andb_prop in Hrun as [Ha _]. now rewrite (Hc a Ha).
Qed.

(** The total-found pattern matches, at its start, a text made of Found,
    white space, digits, white space and "songs in "; it captures the digits. *)
Lemma found_songs_pattern_match_at ws1 ds ws2 post :
  run_of is_space ws1 = true ->
  run_of is_digit ds = true ->
  run_of is_space ws2 = true ->
  match_at found_songs_pattern
           ("Found" ++ ws1 ++ ds ++ ws2 ++ "songs in " ++ post)
  = Some (Some ds).
Proof.
  intros H1 Hd H2. unfold match_at, found_songs_pattern.
  rewrite exec_seq, exec_lit, exec_seq.
  apply exec_plus_run; try assumption.
  { apply (run_starts_outside is_digit is_space); [ | exact Hd ].
    apply is_digit_not_space. }
  rewrite exec_seq, exec_group.
  apply exec_plus_run; try assumption.
  { apply (run_starts_outside is_space is_digit); [ | exact H2 ].
    apply is_space_not_digit. }
  rewrite take_group, exec_seq.
  apply exec_plus_run; try assumption; [ reflexivity | ].
  rewrite exec_seq, exec_lit.
  now apply exec_star_total.
Qed.

(** [search] returns the match at the leftmost position that has one. *)
Lemma search_match_at r s m : match_at r s = Some m -> search r s = Some m.
Proof. intros H. destruct s; cbn; now rewrite H. Qed.

Lemma search_skip r pre s :
  no_match_inside r pre s = true -> search r (pre ++ s) = search r s.
Proof.
  induction pre as [|a pre IH]; [ reflexivity | ].
  intros H. cbn [no_match_inside] in H.
  change (String a pre ++ s) with (String a (pre ++ s)) in *.
  destruct (match_at r (String a (pre ++ s))) eqn:E; [ discriminate | ].
  cbn [search]. rewrite E. now apply IH.
Qed.

(** The downloaded pattern matches, at its start, a text made of
    Downloaded, white space, a quoted non-empty name and a colon. *)
Lemma downloaded_pattern_match_at ws name post :
  run_of is_space ws = true ->
  run_of not_quote name = true ->
  match_at downloaded_pattern
           ("Downloaded" ++ ws ++ String dquote name
                         ++ String dquote ":" ++ post)
  = Some None.
Proof.
  intros Hw Hn. unfold match_at, downloaded_pattern.
  rewrite exec_seq, exec_lit, exec_seq.
  apply exec_plus_run; try assumption; [ reflexivity | ].
  rewrite exec_seq.
  change (String dquote name ++ String dquote ":" ++ post)
    with (String dquote EmptyString ++ name ++ String dquote ":" ++ post).
  rewrite exec_lit, exec_seq.
  apply exec_plus_run; try assumption; [ reflexivity | ].
  now rewrite exec_lit.
Qed.

(** Conversely, what a match says about the text it was found in. *)
Lemma strip_prefix_inv p s rest :
  strip_prefix p s = Some rest -> s = p ++ rest.
Proof.
  revert s; induction p as [|a p IH]; intros s H; cbn in *.
  - congruence.
  - destruct s as [|b s]; [ discriminate | ].
    destruct (Ascii.eqb_spec a b) as [->|]; [ | discriminate ].
    now rewrite (IH _ H).
Qed.

Section GreedyInv.

Context {A : Type}.

Lemma greedy_inv cls s (k : string -> option A) r :
  greedy cls s k = Some r ->
  exists run rest, s = run ++ rest /\ all_of cls run = true /\ k rest = Some r.
Proof.
  induction s as [|c s IH]; cbn; intros H.
  - now exists EmptyString, EmptyString.
  - destruct (cls c) eqn:Hc.
    + destruct (greedy cls s k) as [r'|] eqn:Hg.
      * injection H as ->.
        destruct (IH eq_refl) as (run & rest & -> & Hall & Hk).
        exists (String c run), rest. cbn. now rewrite Hc.
      * now exists EmptyString, (String c s).
    + now exists EmptyString, (String c s).
Qed.

Lemma exec_plus_inv cls s cap (k : string -> option string -> option A) r :
  exec (Plus cls) s cap k = Some r ->
  exists run rest,
    s = run ++ rest /\ run_of cls run = true /\ k rest cap = Some r.
Proof.
  cbn. destruct s as [|c s]; [ discriminate | ].
  destruct (cls c) eqn:Hc; [ | discriminate ].
  intros H. apply greedy_inv in H as (run & rest & -> & Hall & Hk).
  exists (String c run), rest. cbn. now rewrite Hc.
Qed.

Lemma exec_lit_inv l s cap (k : string -> option string -> option A) r :
  exec (Lit l) s cap k = Some r ->
  exists rest, s = l ++ rest /\ k rest cap = Some r.
Proof.
  cbn. destruct (strip_prefix l s) as [rest|] eqn:H; [ | discriminate ].
  intros Hk. exists rest. split; [ now apply strip_prefix_inv | assumption ].
Qed.

Lemma exec_star_inv cls s cap (k : string -> option string -> option A) r :
  exec (Star cls) s cap k = Some r ->
  exists run rest, s = run ++ rest /\ k rest cap = Some r.
Proof.
  cbn. intros H. apply greedy_inv in H as (run & rest & -> & _ & Hk).
  now exists run, rest.
Qed.

End GreedyInv.

Lemma found_songs_pattern_match_at_inv s m :
  match_at found_songs_pattern s = Some m ->
  exists ws1 ds ws2 post,
    s = "Found" ++ ws1 ++ ds ++ ws2 ++ "songs in " ++ post
    /\ run_of is_space ws1 = true
    /\ run_of is_digit ds = true
    /\ run_of is_space ws2 = true
    /\ m = Some ds.
Proof.
  unfold match_at, found_songs_pattern. rewrite exec_seq. intros H.
  apply exec_lit_inv in H as (s1 & -> & H). rewrite exec_seq in H.
  apply exec_plus_inv in H as (ws1 & s2 & -> & H1 & H).
  rewrite exec_seq, exec_group in H.
  apply exec_plus_inv in H as (ds & s3 & -> & Hd & H).
  rewrite take_group, exec_seq in H.
  apply exec_plus_inv in H as (ws2 & s4 & -> & H2 & H).
  rewrite exec_seq in H.
  apply exec_lit_inv in H as (post & -> & H).
  apply exec_star_inv in H as (_ & _ & _ & H). injection H as <-.
  now exists ws1, ds, ws2, post.
Qed.

Lemma downloaded_pattern_match_at_inv s m :
  match_at downloaded_pattern s = Some m ->
  exists ws name post,
    s = "Downloaded" ++ ws ++ String dquote name ++ String dquote ":" ++ post
    /\ run_of is_space ws = true
    /\ run_of not_quote name = true.
Proof.
  unfold match_at, downloaded_pattern. rewrite exec_seq. intros H.
  apply exec_lit_inv in H as (s1 & -> & H). rewrite exec_seq in H.
  apply exec_plus_inv in H as (ws & s2 & -> & Hw & H).
  rewrite exec_seq in H.
  apply exec_lit_inv in H as (s3 & -> & H). rewrite exec_seq in H.
  apply exec_plus_inv in H as (name & s4 & -> & Hn & H).
  apply exec_lit_inv in H as (post & -> & _).
  now exists ws, name, post.
Qed.

Lemma search_inv r s m :
  search r s = Some m ->
  exists pre s',
    s = pre ++ s' /\ match_at r s' = Some m
    /\ no_match_inside r pre s' = true.
Proof.
  induction s as [|c s IH]; cbn [search]; intros H.
  - destruct (match_at r EmptyString) eqn:E; [ | discriminate ].
    injection H as ->. now exists EmptyString, EmptyString.
  - destruct (match_at r (String c s)) eqn:E.
    + injection H as ->. now exists EmptyString, (String c s).
    + destruct (IH H) as (pre & s' & -> & Hm & Hn).
      exists (String c pre), s'. cbn [no_match_inside].
      change (String c pre ++ s') with (String c (pre ++ s')).
      now rewrite E.
Qed.

Lemma search_app r pre s m :
  match_at r s = Some m -> exists m', search r (pre ++ s) = Some m'.
Proof.
  intros H. induction pre as [|c pre IH].
  - exists m. now apply search_match_at.
  - change (String c pre ++ s) with (String c (pre ++ s)). cbn [search].
    destruct (match_at r (String c (pre ++ s))); eauto.
Qed.

(** The lines on which the loop counts a download. *)
Lemma matches_downloaded_iff line :
  matches_downloaded line = true <->
  exists pre ws name post,
    strip line
    = pre ++ "Downloaded" ++ ws ++ String dquote name
          ++ String dquote ":" ++ post
    /\ run_of is_space ws = true
    /\ run_of not_quote name = true.
Proof.
  unfold matches_downloaded. split.
  - destruct (search downloaded_pattern (strip line)) as [m|] eqn:H;
      [ intros _ | discriminate ].
    apply search_inv in H as (pre & s' & -> & H & _).
    apply downloaded_pattern_match_at_inv in H
      as (ws & name & post & -> & Hw & Hn).
    now exists pre, ws, name, post.
  - intros (pre & ws & name & post & -> & Hw & Hn).
    destruct (search_app downloaded_pattern pre _ _
                (downloaded_pattern_match_at ws name post Hw Hn))
      as [m' ->].
    reflexivity.
Qed.

(** The lines that set the total when it is not set. *)
Lemma matches_found_iff line :
  matches_found line = true <->
  exists pre ws1 ds ws2 post,
    strip line = pre ++ "Found" ++ ws1 ++ ds ++ ws2 ++ "songs in " ++ post
    /\ run_of is_space ws1 = true
    /\ run_of is_digit ds = true
    /\ run_of is_space ws2 = true.
Proof.
  unfold matches_found. split.
  - destruct (search found_songs_pattern (strip line)) as [m|] eqn:H;
      [ intros _ | discriminate ].
    apply search_inv in H as (pre & s' & -> & H & _).
    apply found_songs_pattern_match_at_inv in H
      as (ws1 & ds & ws2 & post & -> & H1 & Hd & H2 & _).
    now exists pre, ws1, ds, ws2, post.
  - intros (pre & ws1 & ds & ws2 & post & -> & H1 & Hd & H2).
    destruct (search_app found_songs_pattern pre _ _
                (found_songs_pattern_match_at ws1 ds ws2 post H1 Hd H2))
      as [m' ->].
    reflexivity.
Qed.

(** The total that such a line sets: the digits of the leftmost match. *)
Lemma found_total_spec line :
  matches_found line = true ->
  exists pre ws1 ds ws2 post,
    strip line = pre ++ "Found" ++ ws1 ++ ds ++ ws2 ++ "songs in " ++ post
    /\ run_of is_space ws1 = true
    /\ run_of is_digit ds = true
    /\ run_of is_space ws2 = true
    /\ no_match_inside found_songs_pattern pre
         ("Found" ++ ws1 ++ ds ++ ws2 ++ "songs in " ++ post) = true
    /\ found_total line = int ds.
Proof.
  unfold matches_found, found_total.
  destruct (search found_songs_pattern (strip line)) as [m|] eqn:H;
    [ intros _ | discriminate ].
  apply search_inv in H as (pre & s' & -> & H & Hn).
  apply found_songs_pattern_match_at_inv in H
    as (ws1 & ds & ws2 & post & -> & H1 & Hd & H2 & ->).
  now exists pre, ws1, ds, ws2, post.
Qed.

(** A line that matches the total-found pattern has a capital F, and the
    message with the total has none: the two log messages of such a line
    differ. *)
Lemma mem_app c s1 s2 : mem c (s1 ++ s2) = mem c s1 || mem c s2.
Proof.
  induction s1 as [|a s1 IH]; cbn; [ reflexivity | ].
  now rewrite IH, orb_assoc.
Qed.

Lemma matches_found_mem_F line :
  matches_found line = true -> mem "F" (strip line) = true.
Proof.
  intros H. apply matches_found_iff in H
    as (pre & ws1 & ds & ws2 & post & -> & _).
  rewrite mem_app. cbn. apply orb_true_r.
Qed.

Lemma string_of_uint_mem_F d : mem "F" (NilEmpty.string_of_uint d) = false.
Proof. induction d; cbn; auto. Qed.

Lemma str_mem_F n : mem "F" (str n) = false.
Proof.
  unfold str, NilZero.string_of_int, NilZero.string_of_uint.
  destruct (Z.to_int n) as [d|d]; destruct d; cbn;
    auto using string_of_uint_mem_F.
Qed.

Lemma total_message_differs line n :
  matches_found line = true ->
  "Total songs found: " ++ str n <> strip line.
Proof.
  intros H E. apply matches_found_mem_F in H.
  rewrite <- E, mem_app, str_mem_F in H. discriminate.
Qed.

#[local] Open Scope list_scope.
#[local] Open Scope Z_scope.

(** * Bounds on the rounded percentage *)

(** Decides a comparison of closed integer expressions. *)
Ltac closed_arith :=
  vm_compute; first [ reflexivity | discriminate | intro; discriminate ].



(** Rounding to the nearest integer does not pass an integer bound. *)
Lemma round_half_even_bounds n d K :
  0 <= n -> 0 < d -> n <= K * d ->
  0 <= Float.round_half_even n d <= K.
Proof.
  intros Hn Hd Hle. unfold Float.round_half_even.
  pose proof (Z.div_mod n d ltac:(lia)) as Hdm.
  pose proof (Z.mod_pos_bound n d Hd) as Hm.
  assert (Hq : 0 <= n / d) by (apply Z.div_pos; lia).
  assert (HqK : n / d <= K) by (apply Z.div_le_upper_bound; lia).
  assert (Hlt : 2 * (n mod d) < d -> n / d <= K) by lia.
  assert (Hge : d <= 2 * (n mod d) -> n / d + 1 <= K).
  { intros H. destruct (Z.eq_dec (n / d) K) as [E|E]; [ | lia ].
    rewrite E in Hdm. nia. }
  destruct (Z.compare_spec (2 * (n mod d)) d).
  - destruct (Z.even (n / d)); lia.
  - lia.
  - lia.
Qed.

Lemma ilog2_le n d j :
  0 < n -> 0 < d -> 0 <= j -> n <= 2 ^ j * d -> Float.ilog2 n d <= j.
Proof.
  intros Hn Hd Hj Hle. unfold Float.ilog2.
  assert (Z.log2 n <= j + Z.log2 d).
  { rewrite <- Z.log2_mul_pow2 by lia. apply Z.log2_le_mono. lia. }
  destruct (_ <? _); lia.
Qed.

(** A quotient that is at most [Y], an integer that a float holds exactly,
    rounds to a float that is at most [Y]. *)
Lemma round_bounded n d Y :
  0 <= n -> 0 < d -> 0 <= Y <= 2 ^ 52 -> n <= Y * d ->
  exists m e,
    Float.round n d = Some (Float.Finite m e)
    /\ e <= 0 /\ 0 <= m <= Y * 2 ^ (- e).
Proof.
  intros Hn Hd HY Hle. unfold Float.round.
  destruct (Z.eqb_spec n 0) as [->|Hn0].
  - exists 0, 0. cbn. repeat split; lia.
  - rewrite (Z.abs_eq n Hn).
    assert (Hsgn : Z.sgn n = 1) by (apply Z.sgn_pos; lia).
    set (e := Z.max (Float.ilog2 n d - (Float.prec - 1)) Float.emin).
    assert (He : e <= 0).
    { subst e. assert (Hn52 : n <= 2 ^ 52 * d).
      { apply Z.le_trans with (Y * d); [ assumption | ].
        apply Z.mul_le_mono_nonneg_r; lia. }
      pose proof (ilog2_le n d 52 ltac:(lia) Hd ltac:(lia) Hn52) as H.
      unfold Float.emin, Float.emax, Float.prec. lia. }
    rewrite (Z.max_l 0 e He), (Z.max_r 0 (- e)) by lia.
    rewrite Z.pow_0_r, Z.mul_1_r.
    set (m := Float.round_half_even (n * 2 ^ (- e)) d).
    assert (Hp : 0 < 2 ^ (- e)) by (apply Z.pow_pos_nonneg; lia).
    assert (Hm : 0 <= m <= Y * 2 ^ (- e)).
    { apply round_half_even_bounds; nia. }
    assert (Hov : (2 ^ Float.emax <=? m * 2 ^ e) = false).
    { apply Z.leb_gt.
      assert (2 ^ 52 < 2 ^ Float.emax)
        by (apply Z.pow_lt_mono_r; unfold Float.emax; lia).
      destruct (Z.eq_dec e 0) as [->|Hne].
      - rewrite Z.pow_0_r in *. lia.
      - rewrite (Z.pow_neg_r 2 e) by lia. lia. }
    rewrite Hov, Hsgn, Z.mul_1_l.
    exists m, e. auto.
Qed.

(** While [dl <= Y * t], line 88 raises nothing and its value is at most
    [100 * Y]. *)
Lemma progress_percentage_bounded dl t Y :
  0 <= dl -> 0 < t -> 0 <= Y -> 100 * Y <= 2 ^ 52 -> dl <= Y * t ->
  exists p, progress_percentage dl t = Ok p /\ 0 <= p <= 100 * Y.
Proof.
  intros Hdl Ht HY HY' Hle. unfold progress_percentage, truediv.
  destruct (Z.eqb_spec t 0) as [|_]; [ lia | ].
  rewrite (Z.sgn_pos t Ht), Z.mul_1_l, (Z.abs_eq t) by lia.
  destruct (round_bounded dl t Y Hdl Ht ltac:(lia) Hle)
    as (m & e & -> & He & Hm).
  unfold Float.mul, Float.of_int; cbn [Float.mant Float.expo].
  rewrite Z.add_0_r, (Z.max_l 0 e He), (Z.max_r 0 (- e)) by lia.
  rewrite Z.pow_0_r, Z.mul_1_r.
  assert (Hp : 0 < 2 ^ (- e)) by (apply Z.pow_pos_nonneg; lia).
  destruct (round_bounded (m * 100) (2 ^ (- e)) (100 * Y))
    as (m' & e' & -> & He' & Hm'); try nia.
  eexists; split; [ reflexivity | ].
  unfold Float.trunc; cbn [Float.mant Float.expo].
  rewrite (Z.max_l 0 e' He'), (Z.max_r 0 (- e')) by lia.
  rewrite Z.pow_0_r, Z.mul_1_r.
  assert (Hp' : 0 < 2 ^ (- e')) by (apply Z.pow_pos_nonneg; lia).
  rewrite Z.quot_div_nonneg by lia.
  split.
  - apply Z.div_pos; lia.
  - apply Z.div_le_upper_bound; nia.
Qed.

Lemma round_half_even_nonneg n d :
  0 <= n -> 0 < d -> 0 <= Float.round_half_even n d.
Proof.
  intros Hn Hd. unfold Float.round_half_even.
  assert (Hq : 0 <= n / d) by (apply Z.div_pos; lia).
  destruct (2 * (n mod d) ?= d); [ destruct (Z.even (n / d)) | | ]; lia.
Qed.

Lemma round_nonneg n d x :
  0 <= n -> 0 < d -> Float.round n d = Some x -> 0 <= Float.mant x.
Proof.
  intros Hn Hd. unfold Float.round.
  destruct (n =? 0); [ intros [= <-]; cbn; lia | ].
  destruct (_ <=? _); [ discriminate | ].
  intros [= <-]; cbn [Float.mant].
  apply Z.mul_nonneg_nonneg; [ pose proof (Z.sgn_nonneg n); lia | ].
  apply round_half_even_nonneg.
  - apply Z.mul_nonneg_nonneg; [ lia | apply Z.pow_nonneg; lia ].
  - apply Z.mul_pos_pos; [ lia | apply Z.pow_pos_nonneg; lia ].
Qed.

(** Line 88 gives no negative percentage. *)
Lemma progress_percentage_nonneg dl t p :
  0 <= dl -> 0 < t -> progress_percentage dl t = Ok p -> 0 <= p.
Proof.
  intros Hdl Ht. unfold progress_percentage, truediv.
  destruct (Z.eqb_spec t 0) as [|_]; [ lia | ].
  rewrite (Z.sgn_pos t Ht), Z.mul_1_l, (Z.abs_eq t) by lia.
  destruct (Float.round dl t) as [q|] eqn:Hq; [ | discriminate ].
  apply round_nonneg in Hq; try lia.
  destruct (Float.mul q (Float.of_int 100)) as [x|] eqn:Hx; [ | discriminate ].
  intros [= <-]. unfold Float.mul in Hx.
  apply round_nonneg in Hx.
  - unfold Float.trunc. apply Z.quot_pos.
    + apply Z.mul_nonneg_nonneg; [ lia | apply Z.pow_nonneg; lia ].
    + apply Z.pow_pos_nonneg; lia.
  - cbn [Float.of_int Float.mant].
    repeat apply Z.mul_nonneg_nonneg; try lia;
      try (apply Z.pow_nonneg; lia).
  - apply Z.pow_pos_nonneg; lia.
Qed.

(** * The tracker, line by line *)

(** What a signal carries is in the range of a C [int], and it is the
    Python [int] when that is in the range. *)
Lemma c_int_range v : - 2 ^ 31 <= c_int v < 2 ^ 31.
Proof.
  unfold c_int. change (2 ^ 31) with 2147483648.
  change (2 ^ 32) with 4294967296.
  pose proof (Z.mod_pos_bound (v + 2147483648) 4294967296 ltac:(lia)). lia.
Qed.

Lemma c_int_small v : - 2 ^ 31 <= v < 2 ^ 31 -> c_int v = v.
Proof.
  unfold c_int. change (2 ^ 31) with 2147483648.
  change (2 ^ 32) with 4294967296.
  intros H. rewrite Z.mod_small by lia. lia.
Qed.

(** The six ways through one iteration: the line sets the total; [int]
    raises on the digits of the total; the line counts a download and
    reports a percentage; it counts a download and the percentage raises;
    it counts a download while no positive total is known; it is only
    logged. *)
Ltac on_line_cases st line :=
  unfold on_line;
  destruct (found_songs_match st (strip line)) as [?m|] eqn:?Hfound;
  [ destruct (int (group1 _)) as [?total|?e] eqn:?Hint
  | destruct (search downloaded_pattern (strip line)) as [?d|] eqn:?Hdown;
      [ destruct (0 <? total_songs st) eqn:?Hpos;
        [ destruct (progress_percentage (downloaded_songs st + 1)
                                        (total_songs st))
            as [?p|?e] eqn:?Hpct | ] | ] ];
  cbn [after emitted raised total_songs downloaded_songs total_songs_set app].

Lemma found_songs_match_set st clean_line :
  total_songs_set st = true -> found_songs_match st clean_line = None.
Proof. unfold found_songs_match; now intros ->. Qed.

Lemma found_songs_match_unset st clean_line :
  total_songs_set st = false ->
  found_songs_match st clean_line = search found_songs_pattern clean_line.
Proof. unfold found_songs_match; now intros ->. Qed.

Lemma found_songs_match_some st line m :
  found_songs_match st (strip line) = Some m ->
  total_songs_set st = false
  /\ matches_found line = true
  /\ found_total line = int (group1 m).
Proof.
  unfold found_songs_match, matches_found, found_total.
  destruct (total_songs_set st); [ discriminate | ].
  now intros ->.
Qed.

Lemma on_line_downloaded_mono st line :
  downloaded_songs st <= downloaded_songs (after (on_line st line)).
Proof. on_line_cases st line; lia. Qed.

Lemma on_line_set_mono st line :
  total_songs_set st = true ->
  total_songs_set (after (on_line st line)) = true
  /\ total_songs (after (on_line st line)) = total_songs st.
Proof.
  intros Hset. on_line_cases st line; auto;
    rewrite (found_songs_match_set _ _ Hset) in Hfound; discriminate.
Qed.

Lemma on_line_set_no_total st line :
  total_songs_set st = true ->
  filter is_total_songs_signal (emitted (on_line st line)) = [].
Proof.
  intros Hset. unfold on_line.
  rewrite (found_songs_match_set _ _ Hset).
  destruct (search downloaded_pattern (strip line)); [ | reflexivity ].
  destruct (0 <? total_songs st); [ | reflexivity ].
  destruct (progress_percentage _ _); reflexivity.
Qed.

Lemma on_lines_nil st :
  on_lines st [] = {| after := st; emitted := []; raised := None |}.
Proof. reflexivity. Qed.

Lemma on_lines_cons st line rest :
  on_lines st (line :: rest)
  = match raised (on_line st line) with
    | Some _ => on_line st line
    | None =>
        {| after := after (on_lines (after (on_line st line)) rest);
           emitted := emitted (on_line st line)
                      ++ emitted (on_lines (after (on_line st line)) rest);
           raised := raised (on_lines (after (on_line st line)) rest) |}
    end.
Proof. reflexivity. Qed.

(** The loop over [l1 ++ l2] is the loop over [l1] followed, unless that
    raised, by the loop over [l2] from where it left. *)
Lemma on_lines_app st l1 l2 :
  raised (on_lines st l1) = None ->
  on_lines st (l1 ++ l2)
  = {| after := after (on_lines (after (on_lines st l1)) l2);
       emitted := emitted (on_lines st l1)
                  ++ emitted (on_lines (after (on_lines st l1)) l2);
       raised := raised (on_lines (after (on_lines st l1)) l2) |}.
Proof.
  revert st; induction l1 as [|line l1 IH]; intros st Hr.
  - cbn. now destruct (on_lines st l2).
  - rewrite <- app_comm_cons, !on_lines_cons in *.
    destruct (raised (on_line st line)) eqn:Hl; [ congruence | ].
    cbn [raised after emitted] in *.
    rewrite (IH _ Hr); cbn [raised after emitted].
    now rewrite app_assoc.
Qed.

Lemma on_lines_downloaded_mono st lines :
  downloaded_songs st <= downloaded_songs (after (on_lines st lines)).
Proof.
  revert st; induction lines as [|line rest IH]; intros st.
  - cbn; lia.
  - rewrite on_lines_cons.
    pose proof (on_line_downloaded_mono st line).
    destruct (raised (on_line st line)); [ assumption | ].
    cbn [after]. specialize (IH (after (on_line st line))). lia.
Qed.

Lemma on_lines_set_mono st lines :
  total_songs_set st = true ->
  total_songs_set (after (on_lines st lines)) = true
  /\ total_songs (after (on_lines st lines)) = total_songs st.
Proof.
  revert st; induction lines as [|line rest IH]; intros st Hset.
  - now cbn.
  - rewrite on_lines_cons.
    destruct (on_line_set_mono st line Hset) as [H1 H2].
    destruct (raised (on_line st line)); [ now split | ].
    cbn [after]. destruct (IH _ H1) as [H3 H4]. split; congruence.
Qed.

Lemma on_lines_set_no_total st lines :
  total_songs_set st = true ->
  filter is_total_songs_signal (emitted (on_lines st lines)) = [].
Proof.
  revert st; induction lines as [|line rest IH]; intros st Hset.
  - reflexivity.
  - rewrite on_lines_cons.
    pose proof (on_line_set_no_total st line Hset) as H0.
    destruct (on_line_set_mono st line Hset) as [H1 _].
    destruct (raised (on_line st line)); [ assumption | ].
    cbn [emitted]. now rewrite filter_app, H0, (IH _ H1).
Qed.

Lemma count_downloaded_cons line rest :
  count_downloaded (line :: rest)
  = (if matches_downloaded line then 1 else 0) + count_downloaded rest.
Proof.
  unfold count_downloaded; cbn [filter].
  destruct (matches_downloaded line); cbn [List.length]; lia.
Qed.

Lemma count_downloaded_app l1 l2 :
  count_downloaded (l1 ++ l2) = count_downloaded l1 + count_downloaded l2.
Proof.
  unfold count_downloaded. rewrite filter_app, List.length_app. lia.
Qed.

Lemma count_up_length d k : List.length (count_up d k) = k.
Proof. revert d; induction k as [|k IH]; intros d; cbn; auto. Qed.

(** A line that sets the total: lines 76-81. *)
Lemma on_line_sets_total st line total :
  total_songs_set st = false ->
  matches_found line = true ->
  found_total line = Ok total ->
  on_line st line
  = {| after := {| total_songs := total;
                   downloaded_songs := downloaded_songs st;
                   total_songs_set := true |};
       emitted := [log (strip line); total_songs_signal (c_int total);
                   log ("Total songs found: " ++ str total)];
       raised := None |}.
Proof.
  intros Hset Hm. unfold on_line, matches_found, found_total in *.
  rewrite (found_songs_match_unset _ _ Hset).
  destruct (search found_songs_pattern (strip line)); [ | discriminate ].
  now intros ->.
Qed.

(** A line on whose digits [int] raises at line 77: the line is logged,
    and the loop is left with the locals as they were. *)
Lemma on_line_total_raises st line e :
  total_songs_set st = false ->
  matches_found line = true ->
  found_total line = Raise e ->
  on_line st line
  = {| after := st; emitted := [log (strip line)]; raised := Some e |}.
Proof.
  intros Hset Hm. unfold on_line, matches_found, found_total in *.
  rewrite (found_songs_match_unset _ _ Hset).
  destruct (search found_songs_pattern (strip line)); [ | discriminate ].
  now intros ->.
Qed.

(** A line that does not set the total, while the total is 0: the line is
    logged and, when it matches the downloaded pattern, counted; there is no
    percentage. *)
Lemma on_line_counts st line :
  total_songs st = 0 ->
  total_songs_set st = true \/ matches_found line = false ->
  on_line st line
  = {| after := {| total_songs := 0;
                   downloaded_songs :=
                     downloaded_songs st
                     + (if matches_downloaded line then 1 else 0);
                   total_songs_set := total_songs_set st |};
       emitted := log (strip line)
                  :: (if matches_downloaded line
                      then [downloaded_songs_signal
                              (c_int (downloaded_songs st + 1))]
                      else []);
       raised := None |}.
Proof.
  intros Ht Hnf. destruct st as [t d b]; cbn in Ht; subst t.
  assert (Hf : found_songs_match (Locals 0 d b) (strip line) = None).
  { destruct Hnf as [Hs | Hm]; cbn in *.
    - now apply found_songs_match_set.
    - unfold found_songs_match, matches_found in *; cbn.
      destruct b; [ reflexivity | ].
      now destruct (search found_songs_pattern (strip line)). }
  unfold on_line, matches_downloaded. rewrite Hf.
  destruct (search downloaded_pattern (strip line));
    cbn [Z.ltb Z.compare total_songs downloaded_songs total_songs_set].
  - reflexivity.
  - now rewrite Z.add_0_r.
Qed.

Lemma on_lines_count st lines :
  total_songs st = 0 ->
  total_songs_set st = true
  \/ Forall (fun l => matches_found l = false) lines ->
  let o := on_lines st lines in
  raised o = None
  /\ after o = {| total_songs := 0;
                  downloaded_songs :=
                    downloaded_songs st + count_downloaded lines;
                  total_songs_set := total_songs_set st |}
  /\ filter is_progress (emitted o) = []
  /\ filter is_total_songs_signal (emitted o) = []
  /\ filter is_downloaded_songs_signal (emitted o)
     = map (fun d => downloaded_songs_signal (c_int d))
           (count_up (downloaded_songs st)
                     (List.length (filter matches_downloaded lines))).
Proof.
  revert st; induction lines as [|line rest IH]; intros st Ht Hnf; cbn zeta.
  - destruct st as [t d b]; cbn in *; subst.
    unfold count_downloaded; cbn. rewrite Z.add_0_r. now repeat split.
  - rewrite on_lines_cons, count_downloaded_cons.
    assert (H1 : total_songs_set st = true \/ matches_found line = false).
    { destruct Hnf as [Hs | Hall]; [ now left | right ].
      now inversion Hall. }
    rewrite (on_line_counts st line Ht H1); cbn [raised after emitted].
    set (st1 := {| total_songs := 0;
                   downloaded_songs :=
                     downloaded_songs st
                     + (if matches_downloaded line then 1 else 0);
                   total_songs_set := total_songs_set st |}).
    assert (H2 : total_songs_set st1 = true
                 \/ Forall (fun l => matches_found l = false) rest).
    { destruct Hnf as [Hs | Hall]; [ now left | right ].
      now inversion Hall. }
    destruct (IH st1 eq_refl H2) as (Hr & Ha & Hp & Htot & Hd).
    repeat split.
    + assumption.
    + rewrite Ha; subst st1; cbn. f_equal. lia.
    + cbn [filter is_progress].
      destruct (matches_downloaded line); cbn [app filter is_progress];
        assumption.
    + cbn [filter is_total_songs_signal].
      destruct (matches_downloaded line);
        cbn [app filter is_total_songs_signal]; assumption.
    + cbn [filter is_downloaded_songs_signal]. subst st1.
      destruct (matches_downloaded line);
        cbn [app filter is_downloaded_songs_signal List.length count_up map
             downloaded_songs] in *.
      * now rewrite Hd.
      * now rewrite Hd, Z.add_0_r.
Qed.

(** Once the total is set, each line that matches the downloaded pattern
    adds one to the counter, whatever the total is. *)
Lemma on_line_set_count st line :
  total_songs_set st = true ->
  downloaded_songs (after (on_line st line))
  = downloaded_songs st + (if matches_downloaded line then 1 else 0).
Proof.
  intros Hset. unfold on_line, matches_downloaded.
  rewrite (found_songs_match_set _ _ Hset).
  destruct (search downloaded_pattern (strip line)).
  - destruct (0 <? total_songs st); [ | reflexivity ].
    now destruct (progress_percentage _ _).
  - cbn; lia.
Qed.

Lemma on_lines_set_count st lines :
  total_songs_set st = true ->
  raised (on_lines st lines) = None ->
  downloaded_songs (after (on_lines st lines))
  = downloaded_songs st + count_downloaded lines.
Proof.
  revert st; induction lines as [|line rest IH]; intros st Hset Hr.
  - unfold count_downloaded; cbn; lia.
  - rewrite on_lines_cons in *. rewrite count_downloaded_cons.
    pose proof (on_line_set_count st line Hset) as H1.
    destruct (on_line_set_mono st line Hset) as [H2 _].
    destruct (raised (on_line st line)) eqn:E.
    + rewrite E in Hr; discriminate.
    + cbn [after raised] in *. rewrite (IH _ H2 Hr). lia.
Qed.

Lemma on_lines_unset_count st lines :
  total_songs st = 0 ->
  total_songs_set st = false ->
  raised (on_lines st lines) = None ->
  downloaded_songs (after (on_lines st lines))
  = downloaded_songs st + count_downloaded (without_total_line lines).
Proof.
  revert st; induction lines as [|line rest IH]; intros st Ht Hset Hr.
  - unfold count_downloaded; cbn; lia.
  - rewrite on_lines_cons in *. cbn [without_total_line].
    destruct (matches_found line) eqn:Hm.
    + destruct (found_total line) as [total|e] eqn:Hft.
      * rewrite (on_line_sets_total st line total Hset Hm Hft) in *.
        cbn [raised after] in *.
        now rewrite on_lines_set_count.
      * rewrite (on_line_total_raises st line e Hset Hm Hft) in Hr.
        discriminate.
    + rewrite (on_line_counts st line Ht (or_intror Hm)) in *.
      cbn [raised after] in *.
      rewrite IH; try assumption; try reflexivity.
      rewrite count_downloaded_cons. cbn [downloaded_songs]. lia.
Qed.

Lemma on_lines_app_raised st l1 l2 e :
  raised (on_lines st l1) = Some e ->
  on_lines st (l1 ++ l2) = on_lines st l1.
Proof.
  revert st; induction l1 as [|line l1 IH]; intros st Hr.
  - discriminate.
  - rewrite <- app_comm_cons, !on_lines_cons in *.
    destruct (raised (on_line st line)) eqn:E; [ reflexivity | ].
    cbn [raised] in Hr. now rewrite (IH _ Hr).
Qed.

Lemma on_lines_prefix_downloaded st l1 l2 :
  downloaded_songs (after (on_lines st l1))
  <= downloaded_songs (after (on_lines st (l1 ++ l2))).
Proof.
  destruct (raised (on_lines st l1)) as [e|] eqn:Hr.
  - rewrite (on_lines_app_raised _ _ _ _ Hr). lia.
  - rewrite (on_lines_app _ _ _ Hr); cbn [after].
    apply on_lines_downloaded_mono.
Qed.

Lemma cons_eq_app_other {A : Type} (a x : A) (l before rest : list A) :
  a :: l = before ++ x :: rest ->
  a <> x ->
  exists mid, before = a :: mid /\ l = mid ++ x :: rest.
Proof.
  intros Heq Hne. destruct before as [|b before]; cbn in Heq.
  - injection Heq as -> _. now elim Hne.
  - injection Heq as -> Heq. now exists before.
Qed.

(** Peels the signals other than [progress] off the front of an equation
    [s1 :: ... :: l = before ++ progress p s :: rest]. *)
Ltac peel_signal Heq :=
  let mid := fresh "mid" in
  let Hb := fresh "Hb" in
  apply cons_eq_app_other in Heq; [ | discriminate ];
  destruct Heq as (mid & Hb & Heq); rewrite Hb; clear Hb.

Lemma progress_after_total_signal st lines before p s rest :
  total_songs st <= 0 ->
  emitted (on_lines st lines) = before ++ progress p s :: rest ->
  exists n, In (total_songs_signal n) before.
Proof.
  revert st before; induction lines as [|line lines IH];
    intros st before Ht Heq.
  - cbn in Heq. now destruct before.
  - rewrite on_lines_cons in Heq.
    assert (Hpos : (0 <? total_songs st) = false) by (apply Z.ltb_ge; lia).
    revert Heq. on_line_cases st line; intros Heq;
      try (rewrite Hpos in *; discriminate).
    + do 2 peel_signal Heq. exists (c_int total). cbn; auto.
    + peel_signal Heq. now destruct mid.
    + do 2 peel_signal Heq.
      apply IH in Heq; [ | exact Ht ].
      destruct Heq as [n Hn]. exists n. cbn; auto.
    + peel_signal Heq.
      apply IH in Heq; [ | exact Ht ].
      destruct Heq as [n Hn]. exists n. cbn; auto.
Qed.

(** A line raises only at line 77, on the digits of a total, or at line
    88, on a percentage. *)
Lemma on_line_never_raises st line :
  (forall e, found_total line <> Raise e) ->
  0 <= downloaded_songs st < 2 ^ 45 ->
  raised (on_line st line) = None.
Proof.
  intros Hft Hd. on_line_cases st line; try reflexivity.
  - apply found_songs_match_some in Hfound as (_ & _ & E).
    rewrite Hint in E. now apply Hft in E.
  - apply Z.ltb_lt in Hpos.
    destruct (progress_percentage_bounded
                (downloaded_songs st + 1) (total_songs st) (2 ^ 45))
      as (p & Hp & _);
      [ lia | lia | closed_arith | closed_arith | nia | congruence ].
Qed.

Lemma on_line_downloaded_step st line :
  downloaded_songs (after (on_line st line)) <= downloaded_songs st + 1.
Proof. on_line_cases st line; lia. Qed.

(** No run of fewer than [2 ^ 45] lines raises, unless [int] raises on the
    digits of a total. *)
Lemma on_lines_never_raises st lines :
  Forall (fun l => forall e, found_total l <> Raise e) lines ->
  0 <= downloaded_songs st ->
  downloaded_songs st + Z.of_nat (List.length lines) <= 2 ^ 45 ->
  raised (on_lines st lines) = None.
Proof.
  revert st; induction lines as [|line rest IH]; intros st Hft Hd Hlen.
  - reflexivity.
  - rewrite on_lines_cons. cbn [List.length] in Hlen.
    inversion Hft as [|? ? Hl Hrest]; subst.
    rewrite (on_line_never_raises st line Hl) by lia.
    cbn [raised]. apply IH.
    + exact Hrest.
    + pose proof (on_line_downloaded_mono st line). lia.
    + pose proof (on_line_downloaded_step st line). lia.
Qed.

(** A percentage that the loop reports is what line 88 gives for the
    counter and the total, as a C [int]; it is between 0 and 100 when the
    counter has not passed the total. *)
Lemma on_lines_progress_range st lines p s :
  (total_songs_set st = false -> total_songs st = 0) ->
  0 <= downloaded_songs st ->
  In (progress p s) (emitted (on_lines st lines)) ->
  - 2 ^ 31 <= p < 2 ^ 31
  /\ (downloaded_songs (after (on_lines st lines))
      <= total_songs (after (on_lines st lines)) ->
      0 <= p <= 100).
Proof.
  revert st; induction lines as [|line rest IH]; intros st Hinv Hd Hin.
  - destruct Hin.
  - rewrite on_lines_cons in *. revert Hin.
    on_line_cases st line; intros Hin.
    + destruct Hin as [H|[H|[H|Hin]]]; try discriminate.
      eapply IH; [ | | exact Hin ]; cbn;
        [ intros; discriminate | assumption ].
    + destruct Hin as [H|[]]. discriminate.
    + apply Z.ltb_lt in Hpos.
      assert (Hset : total_songs_set st = true).
      { destruct (total_songs_set st); [ reflexivity | ].
        specialize (Hinv eq_refl). lia. }
      destruct Hin as [H|[H|[H|Hin]]]; try discriminate.
      * injection H as <- _. split; [ apply c_int_range | ].
        intros Hle.
        set (st' := {| total_songs := total_songs st;
                       downloaded_songs := downloaded_songs st + 1;
                       total_songs_set := total_songs_set st |}) in *.
        destruct (on_lines_set_mono st' rest Hset) as [_ Ht].
        pose proof (on_lines_downloaded_mono st' rest) as Hm.
        cbn [total_songs downloaded_songs st'] in Ht, Hm.
        destruct (progress_percentage_bounded
                    (downloaded_songs st + 1) (total_songs st) 1)
          as (p' & Hp' & Hr); [ lia | lia | lia | closed_arith | lia | ].
        rewrite Hpct in Hp'. injection Hp' as <-.
        rewrite c_int_small; [ lia | ].
        change (2 ^ 31) with 2147483648. lia.
      * eapply IH; [ | | exact Hin ]; cbn; [ intros; congruence | lia ].
    + destruct Hin as [H|[H|Hin]]; try discriminate. destruct Hin.
    + destruct Hin as [H|[H|Hin]]; try discriminate.
      eapply IH; [ | | exact Hin ]; cbn; [ assumption | lia ].
    + destruct Hin as [H|Hin]; try discriminate.
      eapply IH; [ | | exact Hin ]; assumption.
Qed.

(** Finds a signal in an explicit list of signals. *)
Ltac in_signals :=
  vm_compute; repeat (first [ left; reflexivity | right ]).

(** The loop up to and with the line that sets the total. *)
Lemma on_lines_up_to_total pre l0 total :
  Forall (fun l => matches_found l = false) pre ->
  matches_found l0 = true ->
  found_total l0 = Ok total ->
  on_lines fresh (pre ++ [l0])
  = {| after := {| total_songs := total;
                   downloaded_songs := count_downloaded pre;
                   total_songs_set := true |};
       emitted := emitted (on_lines fresh pre)
                  ++ [log (strip l0); total_songs_signal (c_int total);
                      log ("Total songs found: " ++ str total)];
       raised := None |}.
Proof.
  intros Hpre Hl0 Hft.
  destruct (on_lines_count fresh pre eq_refl (or_intror Hpre))
    as (Hr & Ha & _).
  rewrite (on_lines_app _ _ _ Hr), Ha.
  cbn [on_lines].
  rewrite (on_line_sets_total _ l0 total) by (assumption || reflexivity).
  cbn [raised after emitted downloaded_songs total_songs_set fresh].
  now rewrite app_nil_r.
Qed.

(** The first line that satisfies [f], and the lines around it. *)
Lemma find_first {A : Type} (f : A -> bool) (l : list A) (x : A) :
  find f l = Some x ->
  exists pre post,
    l = pre ++ x :: post
    /\ Forall (fun y => f y = false) pre
    /\ f x = true.
Proof.
  induction l as [|a l IH]; cbn; [ discriminate | ].
  destruct (f a) eqn:Ha.
  - intros [= ->]. now exists [], l.
  - intros H. destruct (IH H) as (pre & post & -> & Hpre & Hx).
    exists (a :: pre), post. repeat split; [ | assumption ].
    now constructor.
Qed.

Lemma find_none {A : Type} (f : A -> bool) (l : list A) :
  find f l = None -> Forall (fun y => f y = false) l.
Proof.
  induction l as [|a l IH]; cbn; [ constructor | ].
  destruct (f a) eqn:Ha; [ discriminate | ].
  intros H. constructor; auto.
Qed.

(** A run in which [l0] is the first line to match the total-found pattern:
    it is the only line for which [total_songs_signal] is emitted, and the
    total stays what it set. *)
Lemma on_lines_with_total pre l0 post total :
  Forall (fun l => matches_found l = false) pre ->
  matches_found l0 = true ->
  found_total l0 = Ok total ->
  let o := on_lines fresh (pre ++ l0 :: post) in
  filter is_total_songs_signal (emitted o)
  = [total_songs_signal (c_int total)]
  /\ total_songs (after o) = total
  /\ total_songs_set (after o) = true.
Proof.
  intros Hpre Hl0 Hft o; subst o.
  destruct (on_lines_count fresh pre eq_refl (or_intror Hpre))
    as (Hr & Ha & _ & Htot & _).
  rewrite (on_lines_app _ _ _ Hr); cbn [after emitted].
  rewrite Ha, on_lines_cons.
  rewrite (on_line_sets_total _ l0 total) by (assumption || reflexivity).
  cbn [raised after emitted].
  set (st1 := {| total_songs := total;
                 downloaded_songs := _; total_songs_set := true |}).
  destruct (on_lines_set_mono st1 post eq_refl) as [Hs Ht].
  rewrite !filter_app, Htot, (on_lines_set_no_total st1 post eq_refl).
  now repeat split.
Qed.

(** A run in which [int] raises on the digits of [l0], the first line to
    match the total-found pattern: the run ends there, and the total is
    not set. *)
Lemma on_lines_total_raises pre l0 post e :
  Forall (fun l => matches_found l = false) pre ->
  matches_found l0 = true ->
  found_total l0 = Raise e ->
  on_lines fresh (pre ++ l0 :: post)
  = {| after := {| total_songs := 0;
                   downloaded_songs := count_downloaded pre;
                   total_songs_set := false |};
       emitted := emitted (on_lines fresh pre) ++ [log (strip l0)];
       raised := Some e |}.
Proof.
  intros Hpre Hl0 Hft.
  destruct (on_lines_count fresh pre eq_refl (or_intror Hpre))
    as (Hr & Ha & _).
  rewrite (on_lines_app _ _ _ Hr), Ha, on_lines_cons.
  now rewrite (on_line_total_raises _ l0 e) by (assumption || reflexivity).
Qed.

(** * The thread: [stop] against [run] *)

Import Thread.

Lemma report_is_outcome self returncode :
  Forall (fun s => is_outcome s = true) (report self returncode).
Proof.
  unfold report. destruct (_is_running self); [ | constructor ].
  destruct (returncode =? 0); repeat constructor.
Qed.

Lemma stop_is_outcome self :
  Forall (fun s => is_outcome s = true) (snd (stop self)).
Proof.
  unfold stop. destruct (process self), (child self); repeat constructor.
Qed.

Lemma wait_is_outcome self env :
  Forall (fun s => is_outcome s = true) (wait self env).
Proof.
  revert self; induction env as [|[line|status|] env IH]; intros self;
    cbn [wait].
  - destruct (child self); [ apply report_is_outcome | constructor ].
  - apply IH.
  - apply IH.
  - pose proof (stop_is_outcome self) as Hs.
    destruct (stop self) as [self' out]. apply Forall_app; split.
    + exact Hs.
    + apply IH.
Qed.

Lemma after_loop_is_outcome self env :
  Forall (fun s => is_outcome s = true) (after_loop self env).
Proof.
  unfold after_loop. destruct (process self).
  - apply wait_is_outcome.
  - repeat constructor.
Qed.

(** After [stop] has ended the child, the worker is out of the loop at the
    next line or at the end of the output, and line 92 raises. *)
Lemma loop_after_kill self st env later :
  _is_running self = false ->
  process self = false ->
  loop self st env later = [error none_has_no_wait].
Proof.
  revert self; induction env as [|[line|status|] env IH];
    intros self Hr Hp; cbn [loop].
  - unfold after_loop. now rewrite Hp.
  - rewrite Hr. unfold after_loop. now rewrite Hp.
  - apply IH; unfold exit; now destruct (child self).
  - unfold stop. rewrite Hp. cbn [app]. now apply IH.
Qed.

(** A call of [stop] that finds the child running, while the worker is in
    the loop: [stop] emits [finished], and the worker an [error]. *)
Lemma stop_in_loop_child_running self st env later :
  process self = true ->
  child self = None ->
  loop self st (Stop :: env) later = [finished; error none_has_no_wait].
Proof.
  intros Hp Hc. cbn [loop]. unfold stop. rewrite Hp, Hc. cbn [app].
  now rewrite loop_after_kill.
Qed.

Lemma wait_stopped self env :
  _is_running self = false ->
  child self <> None ->
  wait self env = [].
Proof.
  revert self; induction env as [|[line|status|] env IH];
    intros self Hr Hc; cbn [wait].
  - destruct (child self); [ | congruence ].
    unfold report. now rewrite Hr.
  - now apply IH.
  - apply IH; unfold exit; destruct (child self) eqn:E; cbn;
      congruence.
  - unfold stop. destruct (child self) eqn:E; [ | congruence ].
    destruct (process self); cbn [app]; apply IH; cbn; congruence.
Qed.

(** The same call while the worker is blocked in [wait]: [finished] from
    [stop], and nothing from the worker. *)
Lemma stop_in_wait_child_running self env :
  process self = true ->
  child self = None ->
  wait self (Stop :: env) = [finished].
Proof.
  intros Hp Hc. cbn [wait]. unfold stop. rewrite Hp, Hc.
  rewrite wait_stopped; cbn; congruence.
Qed.

Lemma loop_stopped self st env later :
  _is_running self = false ->
  process self = true ->
  child self <> None ->
  loop self st env later = [].
Proof.
  revert self; induction env as [|[line|status|] env IH];
    intros self Hr Hp Hc; cbn [loop].
  - unfold after_loop. rewrite Hp. now apply wait_stopped.
  - rewrite Hr. unfold after_loop. rewrite Hp. now apply wait_stopped.
  - apply IH; unfold exit; destruct (child self) eqn:E; cbn;
      congruence.
  - unfold stop. rewrite Hp. destruct (child self) eqn:E; [ | congruence ].
    cbn [app]. apply IH; cbn; congruence.
Qed.

(** A call of [stop] after the child has terminated: the run reports
    nothing, whatever the exit status. *)
Lemma stop_in_loop_child_exited self st env later :
  process self = true ->
  child self <> None ->
  loop self st (Stop :: env) later = [].
Proof.
  intros Hp Hc. cbn [loop]. unfold stop. rewrite Hp.
  destruct (child self) eqn:E; [ | congruence ].
  cbn [app]. apply loop_stopped; cbn; congruence.
Qed.

(** Once [_is_running] is cleared, the worker emits nothing but [finished]
    or [error], whatever happens next. *)
Lemma loop_cleared_is_outcome self st env later :
  _is_running self = false ->
  Forall (fun s => is_outcome s = true) (loop self st env later).
Proof.
  revert self; induction env as [|[line|status|] env IH];
    intros self Hr; cbn [loop].
  - apply after_loop_is_outcome.
  - rewrite Hr. apply after_loop_is_outcome.
  - apply IH. unfold exit. now destruct (child self).
  - pose proof (stop_is_outcome self) as Hs.
    assert (Hr' : _is_running (fst (stop self)) = false).
    { unfold stop. now destruct (process self), (child self). }
    destruct (stop self) as [self' out]. apply Forall_app. split.
    + exact Hs.
    + now apply IH.
Qed.

(** While [_is_running] is set, the loop of [run] on lines that come one
    after the other is the tracker on those lines. *)
Lemma loop_lines self st lines env later :
  _is_running self = true ->
  loop self st (map Line lines ++ env) later
  = emitted (on_lines st lines)
    ++ match raised (on_lines st lines) with
       | Some e => [error e]
       | None => loop self (after (on_lines st lines)) env later
       end.
Proof.
  intros Hr. revert st; induction lines as [|line lines IH]; intros st.
  - reflexivity.
  - cbn [map app loop]. rewrite Hr, on_lines_cons.
    destruct (raised (on_line st line)) eqn:E.
    + now rewrite E.
    + cbn [emitted raised after]. now rewrite IH, app_assoc.
Qed.

(** A run that nobody stops: the signals of the tracker, then [finished]
    for the exit status 0 and [error] for any other. *)
Lemma run_to_the_end lines status :
  raised (on_lines fresh lines) = None ->
  run (map Line lines) [Exit status]
  = emitted (on_lines fresh lines) ++ report started status.
Proof.
  intros Hn. unfold run.
  rewrite <- (app_nil_r (map Line lines)), loop_lines by reflexivity.
  now rewrite Hn.
Qed.

(** * The properties of the specification *)

(** C1: a [stop] that finds the child running does not leave the run
    without [finished] or [error].  [stop] itself emits [finished], the
    signal of a completed download, and the worker, which then finds
    [self.process] to be [None] at line 92, emits [error]. *)
Theorem C1_stop_while_child_runs :
  run [Line playlist_line; Stop; Line song_line] []
  = [log playlist_line; total_songs_signal 23; log "Total songs found: 23";
     finished; error none_has_no_wait].
Proof. reflexivity. Qed.

(** What C1 asks for does hold when [stop] comes after the child has
    terminated with status 0 and before line 94. *)
Example stop_after_exit_0 :
  run [Line playlist_line; Exit 0; Stop] []
  = [log playlist_line; total_songs_signal 23; log "Total songs found: 23"].
Proof. reflexivity. Qed.

Example exit_0_without_stop :
  run [Line playlist_line; Exit 0] []
  = [log playlist_line; total_songs_signal 23; log "Total songs found: 23";
     finished].
Proof. reflexivity. Qed.

(** C2, as stated, fails: the line that sets the total is logged twice, once
    as read and once as the message with the total. *)
Lemma C2_total_line_is_logged_twice :
  filter is_log (emitted (on_line fresh playlist_line))
  = [log playlist_line; log "Total songs found: 23"]
  /\ List.length (filter is_log (emitted (on_line fresh playlist_line)))
     <> 1%nat.
Proof. split; [ reflexivity | discriminate ]. Qed.

(** C2, amended: every line produces, first, a log signal with the stripped
    line, and no other signal is that one; it is the only log signal of the
    line unless the line sets the total, and then what follows it is
    [total_songs_signal] and, after that, one more log signal: the message
    with the total.  The message has the total as [int] read it, the
    signal has it as a C [int]. *)
Theorem C2_log_of_each_line (st : locals) (line : string) :
  exists rest,
    emitted (on_line st line) = log (strip line) :: rest
    /\ ~ In (log (strip line)) rest
    /\ ((forall n, ~ In (total_songs_signal n) rest) ->
        filter is_log rest = [])
    /\ (forall n, In (total_songs_signal n) rest ->
        exists total,
          found_total line = Ok total
          /\ n = c_int total
          /\ rest = [total_songs_signal n;
                     log ("Total songs found: " ++ str total)]).
Proof.
  on_line_cases st line; eexists; (split; [ reflexivity | ]);
    (split; [ | split ]); cbn [In filter is_log]; try reflexivity; intros;
    try (intuition discriminate).
  - apply found_songs_match_some in Hfound as (_ & Hm & _).
    intros [H|[H|[]]]; [ discriminate | ].
    injection H as E. revert E. now apply total_message_differs.
  - exfalso. apply (H (c_int total)). now left.
  - apply found_songs_match_some in Hfound as (_ & _ & E).
    exists total. rewrite E.
    destruct H as [H|[H|[]]]; [ | discriminate ].
    injection H as <-. now repeat split.
Qed.

(** C3, as stated, fails: a line that sets the total is not tested against
    the downloaded pattern, so a line that matches both is not counted. *)
Lemma C3_total_line_is_not_counted :
  count_downloaded [playlist_song_line] = 1
  /\ downloaded_songs (after (on_lines fresh [playlist_song_line])) = 0
  /\ downloaded_songs (after (on_lines fresh [playlist_song_line]))
     <> count_downloaded [playlist_song_line].
Proof. repeat split; discriminate. Qed.

(** C3, amended: the counter never decreases as lines are consumed; and
    when the loop has consumed the lines [l1 ++ l2], the counter is the
    number of those that match the downloaded pattern, the line that set
    the total left out.  (The loop consumes every sequence of fewer than
    [2 ^ 45] lines on which [int] does not raise:
    [on_lines_never_raises].) *)
Theorem C3_downloaded_counter (l1 l2 : list string) :
  downloaded_songs (after (on_lines fresh l1))
  <= downloaded_songs (after (on_lines fresh (l1 ++ l2)))
  /\ (raised (on_lines fresh (l1 ++ l2)) = None ->
      downloaded_songs (after (on_lines fresh (l1 ++ l2)))
      = count_downloaded (without_total_line (l1 ++ l2))).
Proof.
  split.
  - apply on_lines_prefix_downloaded.
  - intros Hr.
    now rewrite (on_lines_unset_count fresh _ eq_refl eq_refl Hr).
Qed.

Lemma C3_downloaded_counter_witness :
  let l1 := [song_line; playlist_song_line] in
  let l2 := [song_line; "x"; song_line] in
  downloaded_songs (after (on_lines fresh l1)) <= 3
  /\ downloaded_songs (after (on_lines fresh (l1 ++ l2))) = 3.
Proof.
  cbv zeta.
  destruct (C3_downloaded_counter
              [song_line; playlist_song_line]
              [song_line; "x"; song_line]) as [Hmono Hcount].
  split; [ exact Hmono | ]. apply Hcount. reflexivity.
Defined.

(** C4, as stated, fails: nothing keeps the counter below the total, and
    the second download of a playlist announced with one song is reported
    as 200 percent. *)
Lemma C4_percentage_above_100 :
  In (progress 200 "Downloading 2/1")
     (emitted (on_lines fresh ["Found 1 songs in x"; song_line; song_line]))
  /\ ~ (0 <= 200 <= 100).
Proof. split; [ in_signals | lia ]. Qed.

(** What [progress] carries is a C [int]: the 21474837th download of a
    playlist announced with one song, 2147483700 percent at line 88, is
    reported as a negative percentage. *)
Example percentage_21474837_of_1 :
  progress_percentage 21474837 1 = Ok 2147483700
  /\ emitted (on_line {| total_songs := 1; downloaded_songs := 21474836;
                         total_songs_set := true |} song_line)
     = [log song_line; downloaded_songs_signal 21474837;
        progress (-2147483596) "Downloading 21474837/1"].
Proof. split; vm_compute; reflexivity. Qed.

(** C4, amended: every percentage the loop reports is between 0 and 100
    when the counter has not passed the total; in every case it is in the
    range of a C [int]. *)
Theorem C4_percentage_range (lines : list string) (p : Z) (s : string) :
  In (progress p s) (emitted (on_lines fresh lines)) ->
  - 2 ^ 31 <= p < 2 ^ 31
  /\ (downloaded_songs (after (on_lines fresh lines))
      <= total_songs (after (on_lines fresh lines)) ->
      0 <= p <= 100).
Proof.
  apply on_lines_progress_range; cbn; intros; lia.
Qed.

Lemma C4_percentage_range_witness : 0 <= 66 <= 100.
Proof.
  destruct (C4_percentage_range
              ["Found 3 songs in x"; song_line; "x"; song_line]
              66 "Downloading 2/3") as [_ H100].
  - in_signals.
  - apply H100. vm_compute. discriminate.
Defined.

(** C5: [total_songs_signal] is emitted at most once, for the first line
    that matches the total-found pattern, and that line sets the total,
    unless [int] raises on its digits, which ends the run with the total
    not set; once the total is set, whatever lines [more] follow, it stays
    set and unchanged, and [total_songs_signal] is not emitted again. *)
Theorem C5_total_set_once (lines more : list string) :
  let o := on_lines fresh lines in
  filter is_total_songs_signal (emitted o)
  = match first_total lines with
    | Some total => [total_songs_signal (c_int total)]
    | None => []
    end
  /\ total_songs (after o)
     = match first_total lines with
       | Some total => total
       | None => 0
       end
  /\ total_songs_set (after o)
     = match first_total lines with
       | Some _ => true
       | None => false
       end
  /\ (total_songs_set (after o) = true ->
      let o' := on_lines (after o) more in
      total_songs (after o') = total_songs (after o)
      /\ total_songs_set (after o') = true
      /\ filter is_total_songs_signal (emitted o') = []).
Proof.
  cbv zeta.
  assert (H : filter is_total_songs_signal (emitted (on_lines fresh lines))
              = match first_total lines with
                | Some total => [total_songs_signal (c_int total)]
                | None => []
                end
              /\ total_songs (after (on_lines fresh lines))
                 = match first_total lines with
                   | Some total => total
                   | None => 0
                   end
              /\ total_songs_set (after (on_lines fresh lines))
                 = match first_total lines with
                   | Some _ => true
                   | None => false
                   end).
  { unfold first_total.
    destruct (find matches_found lines) as [l0|] eqn:Hf.
    - apply find_first in Hf as (pre & post & -> & Hpre & Hl0).
      destruct (found_total l0) as [total|e] eqn:Hft.
      + now apply on_lines_with_total.
      + rewrite (on_lines_total_raises pre l0 post e Hpre Hl0 Hft).
        cbn [emitted after total_songs total_songs_set].
        destruct (on_lines_count fresh pre eq_refl (or_intror Hpre))
          as (_ & _ & _ & Ht & _).
        now rewrite filter_app, Ht.
    - apply find_none in Hf.
      destruct (on_lines_count fresh lines eq_refl (or_intror Hf))
        as (_ & Ha & _ & Ht & _).
      rewrite Ha. now repeat split. }
  destruct H as (H1 & H2 & H3). repeat split; try assumption.
  - now apply on_lines_set_mono.
  - now apply on_lines_set_mono.
  - now apply on_lines_set_no_total.
Qed.

(** A first total of 4301 digits: [int] raises, no later line sets the
    total, and the run ends with [error]. *)
Example total_of_4301_digits :
  let o := on_lines fresh [song_line; zeros_line 4301; playlist_line] in
  first_total [song_line; zeros_line 4301; playlist_line] = None
  /\ emitted o
     = [log song_line; downloaded_songs_signal 1; log (zeros_line 4301)]
  /\ after o = {| total_songs := 0; downloaded_songs := 1;
                  total_songs_set := false |}
  /\ raised o = Some (exceeds_the_limit 4301)
  /\ Thread.run [Thread.Line (zeros_line 4301);
                 Thread.Line playlist_line] [Thread.Exit 0]
     = [log (zeros_line 4301); error (exceeds_the_limit 4301)].
Proof. repeat split; vm_compute; reflexivity. Qed.

Example total_set_once_ex :
  let o := on_lines fresh [song_line; "x"; playlist_line; song_line;
                           "Found 7 songs in y"; song_line] in
  filter is_total_songs_signal (emitted o) = [total_songs_signal 23]
  /\ total_songs (after o) = 23.
Proof. split; vm_compute; reflexivity. Qed.

(** C6: in the signals of a run of the loop from its initial state, every
    [progress] comes after a [total_songs_signal]. *)
Theorem C6_progress_after_total
        (lines : list string) (before rest : list signal)
        (p : Z) (s : string) :
  emitted (on_lines fresh lines) = before ++ progress p s :: rest ->
  exists n, In (total_songs_signal n) before.
Proof.
  apply progress_after_total_signal. cbn; lia.
Qed.

Lemma C6_progress_after_total_witness :
  exists n,
    In (total_songs_signal n)
       [log playlist_line; total_songs_signal 23;
        log "Total songs found: 23"; log song_line;
        downloaded_songs_signal 1].
Proof.
  apply (C6_progress_after_total
           [playlist_line; song_line; song_line] _
           [log song_line; downloaded_songs_signal 2;
            progress 8 "Downloading 2/23"]
           4 "Downloading 1/23").
  reflexivity.
Defined.

(** C7: the code does not report [floor (downloaded / total * 100)] for
    every count.  The 29th download of 100 is reported as 28 percent: the
    float nearest to 29/100 is below it, and so is its product with 100. *)
Theorem C7_percentage_29_of_100 :
  on_line {| total_songs := 100; downloaded_songs := 28;
             total_songs_set := true |} song_line
  = {| after := {| total_songs := 100; downloaded_songs := 29;
                   total_songs_set := true |};
       emitted := [log song_line; downloaded_songs_signal 29;
                   progress 28 "Downloading 29/100"];
       raised := None |}
  /\ last (emitted (on_lines fresh
                      ("Found 100 songs in x" :: repeat song_line 29)))
          finished
     = progress 28 "Downloading 29/100"
  /\ 29 * 100 / 100 = 29.
Proof. split; [ | split ]; vm_compute; reflexivity. Qed.

(** The two instances that C7 names do hold. *)
Lemma percentage_4_of_10 :
  last (emitted (on_lines fresh
                   ("Found 10 songs in x" :: repeat song_line 4)))
       finished
  = progress 40 "Downloading 4/10".
Proof. vm_compute; reflexivity. Qed.

Lemma percentage_3_of_5 :
  emitted (on_line {| total_songs := 5; downloaded_songs := 2;
                      total_songs_set := true |} song_line)
  = [log song_line; downloaded_songs_signal 3;
     progress 60 "Downloading 3/5"].
Proof. vm_compute; reflexivity. Qed.

(** C8, as stated, fails: the pattern of the code wants white space on both
    sides of the digits and a space after "songs in", which a stripped line
    that ends there does not have. *)
Lemma C8_songs_in_at_the_end :
  spec_total_found (strip "Found 23 songs in") "23"
  /\ on_line fresh "Found 23 songs in"
     = {| after := fresh; emitted := [log "Found 23 songs in"];
          raised := None |}
  /\ ~ In (total_songs_signal 23) (emitted (on_line fresh "Found 23 songs in")).
Proof.
  split; [ | split ].
  - exists EmptyString, " ", " ", EmptyString. now repeat split.
  - reflexivity.
  - cbn. intros [H|[]]. discriminate.
Qed.

(** C8, amended: while the total is not set, a stripped line that contains
    Found, white space, digits, white space and "songs in " with its space,
    sets the total to the number the digits of the leftmost such place
    spell, and [total_songs_signal] carries that number as a C [int];
    unless there are more than 4300 digits: then [int] raises, the line is
    only logged and the loop is left with the total not set. *)
Theorem C8_total_found (st : locals) (line pre ws1 ds ws2 post : string) :
  total_songs_set st = false ->
  strip line
  = (pre ++ "Found" ++ ws1 ++ ds ++ ws2 ++ "songs in " ++ post)%string ->
  run_of is_space ws1 = true ->
  run_of is_digit ds = true ->
  run_of is_space ws2 = true ->
  no_match_inside found_songs_pattern pre
    ("Found" ++ ws1 ++ ds ++ ws2 ++ "songs in " ++ post) = true ->
  on_line st line
  = if Z.of_nat (String.length ds) <=? 4300 then
      {| after := {| total_songs := decimal ds;
                     downloaded_songs := downloaded_songs st;
                     total_songs_set := true |};
         emitted := [log (strip line); total_songs_signal (c_int (decimal ds));
                     log ("Total songs found: " ++ str (decimal ds))];
         raised := None |}
    else
      {| after := st;
         emitted := [log (strip line)];
         raised := Some (exceeds_the_limit (Z.of_nat (String.length ds))) |}.
Proof.
  intros Hset Hline H1 Hd H2 Hleft.
  assert (Hs : search found_songs_pattern (strip line) = Some (Some ds)).
  { rewrite Hline, (search_skip _ _ _ Hleft).
    now apply search_match_at, found_songs_pattern_match_at. }
  assert (Hm : matches_found line = true)
    by (unfold matches_found; now rewrite Hs).
  assert (Hft : found_total line = int ds)
    by (unfold found_total; now rewrite Hs).
  unfold int, int_max_str_digits in Hft.
  destruct (Z.leb_spec (Z.of_nat (String.length ds)) 4300) as [Hle|Hgt].
  - rewrite (proj2 (Z.ltb_ge _ _) Hle) in Hft.
    now apply on_line_sets_total.
  - rewrite (proj2 (Z.ltb_lt _ _) Hgt) in Hft.
    now apply on_line_total_raises.
Qed.

Lemma C8_total_found_witness :
  on_line fresh playlist_line
  = {| after := {| total_songs := 23; downloaded_songs := 0;
                   total_songs_set := true |};
       emitted := [log playlist_line; total_songs_signal 23;
                   log "Total songs found: 23"];
       raised := None |}.
Proof.
  apply (C8_total_found fresh playlist_line EmptyString " " "23" " "
           (quoted "My Playlist" ++ " (My Playlist)"));
    reflexivity.
Defined.

(** From [2 ^ 31] on, the total that is set and logged is not the one that
    [total_songs_signal] carries. *)
Example total_2147483648 :
  on_line fresh "Found 2147483648 songs in x"
  = {| after := {| total_songs := 2147483648; downloaded_songs := 0;
                   total_songs_set := true |};
       emitted := [log "Found 2147483648 songs in x";
                   total_songs_signal (-2147483648);
                   log "Total songs found: 2147483648"];
       raised := None |}.
Proof. vm_compute; reflexivity. Qed.

Example total_found_leftmost :
  on_line fresh "  a Found 1 x Found  042 songs in Found 7 songs in b "
  = {| after := {| total_songs := 42; downloaded_songs := 0;
                   total_songs_set := true |};
       emitted := [log "a Found 1 x Found  042 songs in Found 7 songs in b";
                   total_songs_signal 42; log "Total songs found: 42"];
       raised := None |}.
Proof. reflexivity. Qed.

(** C9: when the first line that matches the total-found pattern carries
    the total 0, [total_songs_signal 0] is emitted for it and the total is
    set; in the rest of the run the total stays set and 0, no
    [total_songs_signal] and no [progress] is emitted, nothing is raised,
    and each line that matches the downloaded pattern adds one to the
    counter and emits [downloaded_songs_signal] with the new count. *)
Theorem C9_total_zero (pre post : list string) (l0 : string) :
  Forall (fun l => matches_found l = false) pre ->
  matches_found l0 = true ->
  found_total l0 = Ok 0 ->
  let o1 := on_lines fresh (pre ++ [l0]) in
  let o2 := on_lines (after o1) post in
  on_lines fresh (pre ++ l0 :: post)
  = {| after := after o2; emitted := emitted o1 ++ emitted o2;
       raised := None |}
  /\ filter is_total_songs_signal (emitted o1) = [total_songs_signal 0]
  /\ total_songs_set (after o1) = true
  /\ total_songs_set (after o2) = true
  /\ total_songs (after o2) = 0
  /\ filter is_total_songs_signal (emitted o2) = []
  /\ filter is_progress (emitted o1 ++ emitted o2) = []
  /\ List.length (filter is_downloaded_songs_signal (emitted o2))
     = List.length (filter matches_downloaded post)
  /\ downloaded_songs (after o2)
     = count_downloaded pre + count_downloaded post
  /\ filter is_downloaded_songs_signal (emitted o2)
     = map (fun d => downloaded_songs_signal (c_int d))
           (count_up (count_downloaded pre)
                     (List.length (filter matches_downloaded post))).
Proof.
  intros Hpre Hl0 Hz o1 o2.
  assert (E1 : o1 = on_lines fresh (pre ++ [l0])) by reflexivity.
  rewrite (on_lines_up_to_total pre l0 0 Hpre Hl0 Hz) in E1.
  destruct (on_lines_count fresh pre eq_refl (or_intror Hpre))
    as (_ & _ & Hp1 & Ht1 & _).
  assert (Hs1 : total_songs (after o1) = 0) by now rewrite E1.
  assert (Hb1 : total_songs_set (after o1) = true) by now rewrite E1.
  assert (Hd1 : downloaded_songs (after o1) = count_downloaded pre)
    by now rewrite E1.
  destruct (on_lines_count (after o1) post Hs1 (or_introl Hb1))
    as (Hr2 & Ha2 & Hp2 & Ht2 & Hd2).
  fold o2 in Hr2, Ha2, Hp2, Ht2, Hd2. rewrite Hd1 in Hd2, Ha2.
  repeat split.
  - change (pre ++ l0 :: post) with (pre ++ [l0] ++ post).
    rewrite app_assoc, on_lines_app; fold o1; [ | now rewrite E1 ].
    fold o2. now rewrite Hr2.
  - rewrite E1; cbn [emitted]. now rewrite filter_app, Ht1.
  - assumption.
  - now rewrite Ha2.
  - now rewrite Ha2.
  - assumption.
  - rewrite filter_app, Hp2, E1; cbn [emitted].
    now rewrite filter_app, Hp1.
  - now rewrite Hd2, length_map, count_up_length.
  - now rewrite Ha2.
  - assumption.
Qed.

Lemma C9_total_zero_witness :
  let post := [song_line; "Found 7 songs in y"; song_line] in
  let o1 := on_lines fresh ([song_line] ++ [empty_playlist_line]) in
  let o2 := on_lines (after o1) post in
  on_lines fresh ([song_line] ++ empty_playlist_line :: post)
  = {| after := after o2; emitted := emitted o1 ++ emitted o2;
       raised := None |}
  /\ filter is_total_songs_signal (emitted o1) = [total_songs_signal 0]
  /\ total_songs_set (after o1) = true
  /\ total_songs_set (after o2) = true
  /\ total_songs (after o2) = 0
  /\ filter is_total_songs_signal (emitted o2) = []
  /\ filter is_progress (emitted o1 ++ emitted o2) = []
  /\ List.length (filter is_downloaded_songs_signal (emitted o2))
     = List.length (filter matches_downloaded post)
  /\ downloaded_songs (after o2)
     = count_downloaded [song_line] + count_downloaded post
  /\ filter is_downloaded_songs_signal (emitted o2)
     = map (fun d => downloaded_songs_signal (c_int d))
           (count_up (count_downloaded [song_line])
                     (List.length (filter matches_downloaded post))).
Proof.
  apply (C9_total_zero [song_line]
           [song_line; "Found 7 songs in y"; song_line]
           empty_playlist_line).
  - repeat constructor.
  - reflexivity.
  - reflexivity.
Defined.

(** The digits of a total 0 can be more than one, up to the limit of
    [int]. *)
Example total_zero_ex :
  found_total (zeros_line 4300) = Ok 0
  /\ found_total (zeros_line 4301) = Raise (exceeds_the_limit 4301)
  /\ filter is_downloaded_songs_signal
       (emitted (on_lines fresh [song_line; zeros_line 3; song_line;
                                 song_line]))
     = [downloaded_songs_signal 1; downloaded_songs_signal 2;
        downloaded_songs_signal 3].
Proof. repeat split; vm_compute; reflexivity. Qed.

(** C10: a line read while [_is_running] is cleared is not processed; the
    worker goes on after the loop, and all that is emitted from there on
    is [finished] or [error], none of the signals of the loop body; this
    holds for whatever events [env'] come once the flag is cleared. *)
Theorem C10_loop_exits_when_stopped
        (self : state) (st : locals) (line : string)
        (env env' later : list event) :
  _is_running self = false ->
  loop self st (Line line :: env) later = after_loop self (env ++ later)
  /\ Forall (fun s => is_outcome s = true)
            (loop self st (Line line :: env) later)
  /\ Forall (fun s => is_outcome s = true) (loop self st env' later).
Proof.
  intros Hr. cbn [loop]. rewrite Hr. split; [ reflexivity | split ].
  - apply after_loop_is_outcome.
  - now apply loop_cleared_is_outcome.
Qed.

Lemma C10_loop_exits_when_stopped_witness :
  let self := {| _is_running := false; process := true; child := Some 0 |} in
  loop self fresh (Line playlist_line :: [Line song_line]) []
  = after_loop self ([Line song_line] ++ [])
  /\ Forall (fun s => is_outcome s = true)
            (loop self fresh (Line playlist_line :: [Line song_line]) [])
  /\ Forall (fun s => is_outcome s = true)
            (loop self fresh [Exit 1; Line song_line; Stop] []).
Proof.
  apply (C10_loop_exits_when_stopped
           {| _is_running := false; process := true; child := Some 0 |}
           fresh playlist_line [Line song_line]
           [Exit 1; Line song_line; Stop] []).
  reflexivity.
Defined.

(** * Further properties of the loop *)

(** ** [strip] *)

Lemma lstrip_starts_outside s : starts_outside is_space (lstrip s) = true.
Proof.
  induction s as [|c s IH]; cbn; [ reflexivity | ].
  destruct (is_space c) eqn:E; [ exact IH | cbn; now rewrite E ].
Qed.

Lemma lstrip_fixed s :
  starts_outside is_space s = true -> lstrip s = s.
Proof. destruct s as [|c s]; cbn; [ reflexivity | ]. now destruct (is_space c). Qed.

Lemma rstrip_cons c s :
  rstrip (String c s)
  = match rstrip s with
    | EmptyString => if is_space c then EmptyString else String c EmptyString
    | r => String c r
    end.
Proof. reflexivity. Qed.

Lemma rstrip_idem s : rstrip (rstrip s) = rstrip s.
Proof.
  induction s as [|c s IH]; [ reflexivity | ].
  rewrite rstrip_cons. destruct (rstrip s) as [|b r] eqn:E.
  - destruct (is_space c) eqn:Ec; [ reflexivity | ].
    cbn. now rewrite Ec.
  - rewrite rstrip_cons, IH. reflexivity.
Qed.

Lemma rstrip_starts_outside s :
  starts_outside is_space s = true ->
  starts_outside is_space (rstrip s) = true.
Proof.
  destruct s as [|c s]; [ reflexivity | ].
  rewrite rstrip_cons. cbn [starts_outside]. intros Hc.
  destruct (rstrip s); [ | exact Hc ].
  destruct (is_space c) eqn:Ec; cbn; [ reflexivity | now rewrite Ec ].
Qed.

Lemma rstrip_ends_outside s : ends_outside is_space (rstrip s) = true.
Proof.
  induction s as [|c s IH]; [ reflexivity | ].
  rewrite rstrip_cons. destruct (rstrip s) as [|b r] eqn:E.
  - destruct (is_space c) eqn:Ec; cbn; [ reflexivity | now rewrite Ec ].
  - exact IH.
Qed.

Lemma strip_idem s : strip (strip s) = strip s.
Proof.
  unfold strip.
  rewrite (lstrip_fixed (rstrip (lstrip s))).
  - apply rstrip_idem.
  - apply rstrip_starts_outside, lstrip_starts_outside.
Qed.

(** Surrounding white space of an output line has no effect: the loop
    body does on a line what it does on the stripped line, and the text it
    logs first neither starts nor ends with white space. *)
Theorem on_line_ignores_surrounding_space (st : locals) (line : string) :
  on_line st (strip line) = on_line st line
  /\ hd_error (emitted (on_line st line)) = Some (log (strip line))
  /\ starts_outside is_space (strip line) = true
  /\ ends_outside is_space (strip line) = true.
Proof.
  repeat split.
  - unfold on_line. now rewrite strip_idem.
  - on_line_cases st line; reflexivity.
  - apply rstrip_starts_outside, lstrip_starts_outside.
  - apply rstrip_ends_outside.
Qed.

(** ** The counts that are signalled *)

Lemma count_up_app d a b :
  count_up d (a + b) = count_up d a ++ count_up (d + Z.of_nat a) b.
Proof.
  revert d; induction a as [|a IH]; intros d.
  - cbn. now rewrite Z.add_0_r.
  - cbn [Nat.add count_up app]. rewrite IH. do 3 f_equal. lia.
Qed.

Lemma downloaded_values_app l1 l2 :
  downloaded_values (l1 ++ l2) = downloaded_values l1 ++ downloaded_values l2.
Proof. unfold downloaded_values. apply flat_map_app. Qed.

Lemma on_line_downloaded_values st line :
  exists k : nat,
    downloaded_values (emitted (on_line st line))
    = map c_int (count_up (downloaded_songs st) k)
    /\ downloaded_songs (after (on_line st line))
       = downloaded_songs st + Z.of_nat k.
Proof.
  on_line_cases st line;
    [ exists 0%nat | exists 0%nat | exists 1%nat | exists 1%nat
    | exists 1%nat | exists 0%nat ];
    (split; [ reflexivity | cbn [Z.of_nat Pos.of_succ_nat]; lia ]).
Qed.

Lemma on_lines_downloaded_values st lines :
  exists k : nat,
    downloaded_values (emitted (on_lines st lines))
    = map c_int (count_up (downloaded_songs st) k)
    /\ downloaded_songs (after (on_lines st lines))
       = downloaded_songs st + Z.of_nat k.
Proof.
  revert st; induction lines as [|line rest IH]; intros st.
  - exists 0%nat. cbn. split; [ reflexivity | lia ].
  - rewrite on_lines_cons.
    destruct (on_line_downloaded_values st line) as (k1 & Hv1 & Hd1).
    destruct (raised (on_line st line)).
    + now exists k1.
    + destruct (IH (after (on_line st line))) as (k2 & Hv2 & Hd2).
      exists (k1 + k2)%nat. cbn [emitted after]. split.
      * now rewrite downloaded_values_app, Hv1, Hv2, count_up_app, Hd1,
          map_app.
      * rewrite Hd2, Hd1. lia.
Qed.

(** The [downloaded_songs_signal]s of a run of the loop carry 1, 2, 3 and so
    on, as C [int]s, without a gap or a repetition, up to the final value
    of the counter. *)
Theorem downloaded_signals_count_up (lines : list string) :
  downloaded_values (emitted (on_lines fresh lines))
  = map c_int
        (count_up 0 (Z.to_nat
                       (downloaded_songs (after (on_lines fresh lines))))).
Proof.
  destruct (on_lines_downloaded_values fresh lines) as (k & Hv & Hd).
  rewrite Hv, Hd. cbn [downloaded_songs fresh].
  now rewrite Z.add_0_l, Nat2Z.id.
Qed.

(** ** When a signal of the loop body is emitted *)

(** [total_songs_signal] is emitted only while the total is not set and
    only for a line of the form of the total-found pattern with at most
    4300 digits; it carries, as a C [int], the number that the digits of
    the leftmost match spell, which is the total from then on. *)
Theorem total_songs_signal_only_for_found (st : locals) (line : string)
        (n : Z) :
  In (total_songs_signal n) (emitted (on_line st line)) ->
  total_songs_set st = false
  /\ exists pre ws1 ds ws2 post,
       strip line
       = (pre ++ "Found" ++ ws1 ++ ds ++ ws2 ++ "songs in " ++ post)%string
       /\ run_of is_space ws1 = true
       /\ run_of is_digit ds = true
       /\ run_of is_space ws2 = true
       /\ no_match_inside found_songs_pattern pre
            ("Found" ++ ws1 ++ ds ++ ws2 ++ "songs in " ++ post) = true
       /\ Z.of_nat (String.length ds) <= 4300
       /\ n = c_int (decimal ds)
       /\ total_songs (after (on_line st line)) = decimal ds
       /\ total_songs_set (after (on_line st line)) = true.
Proof.
  on_line_cases st line; cbn [In]; intros Hin;
    try (exfalso; intuition discriminate).
  destruct Hin as [H|[H|[H|[]]]]; try discriminate. injection H as <-.
  apply found_songs_match_some in Hfound as (Hset & Hm & E).
  destruct (found_total_spec line Hm)
    as (pre & ws1 & ds & ws2 & post & El & H1 & Hd & H2 & Hl & Ht).
  rewrite Ht in E. rewrite <- E in Hint. unfold int in Hint.
  destruct (Z.ltb_spec int_max_str_digits (Z.of_nat (String.length ds)))
    as [|Hle]; [ discriminate | ].
  injection Hint as <-. split; [ exact Hset | ].
  exists pre, ws1, ds, ws2, post. now repeat split.
Qed.

Lemma total_songs_signal_only_for_found_witness :
  total_songs_set fresh = false
  /\ exists pre ws1 ds ws2 post,
       strip playlist_line
       = (pre ++ "Found" ++ ws1 ++ ds ++ ws2 ++ "songs in " ++ post)%string
       /\ run_of is_space ws1 = true
       /\ run_of is_digit ds = true
       /\ run_of is_space ws2 = true
       /\ no_match_inside found_songs_pattern pre
            ("Found" ++ ws1 ++ ds ++ ws2 ++ "songs in " ++ post) = true
       /\ Z.of_nat (String.length ds) <= 4300
       /\ 23 = c_int (decimal ds)
       /\ total_songs (after (on_line fresh playlist_line)) = decimal ds
       /\ total_songs_set (after (on_line fresh playlist_line)) = true.
Proof.
  apply (total_songs_signal_only_for_found fresh playlist_line 23).
  vm_compute. right. left. reflexivity.
Defined.

(** A download is counted for exactly the lines of the form of the
    downloaded pattern that are not taken for the line of the total. *)
Theorem downloaded_songs_signal_iff (st : locals) (line : string) :
  (exists n, In (downloaded_songs_signal n) (emitted (on_line st line)))
  <->
  (total_songs_set st = true \/ matches_found line = false)
  /\ exists pre ws name post,
       strip line
       = (pre ++ "Downloaded" ++ ws ++ String dquote name
              ++ String dquote ":" ++ post)%string
       /\ run_of is_space ws = true
       /\ run_of not_quote name = true.
Proof.
  rewrite <- matches_downloaded_iff.
  unfold on_line, found_songs_match, matches_found, matches_downloaded.
  destruct (total_songs_set st) eqn:Hset.
  - destruct (search downloaded_pattern (strip line)).
    + split; [ intros _; now split; [ left | ] | intros _ ].
      exists (c_int (downloaded_songs st + 1)).
      destruct (0 <? total_songs st);
        [ destruct (progress_percentage _ _) | ]; cbn [emitted app In]; auto.
    + split.
      * intros [n Hn]. cbn in Hn. intuition discriminate.
      * intros [_ H]. discriminate.
  - destruct (search found_songs_pattern (strip line)).
    + split.
      * intros [n Hn]. destruct (int (group1 _)); cbn [emitted In] in Hn;
          intuition discriminate.
      * intros [[H|H] _]; discriminate.
    + destruct (search downloaded_pattern (strip line)).
      * split; [ intros _; now split; [ right | ] | intros _ ].
        exists (c_int (downloaded_songs st + 1)).
        destruct (0 <? total_songs st);
          [ destruct (progress_percentage _ _) | ]; cbn [emitted app In];
          auto.
      * split.
        -- intros [n Hn]. cbn in Hn. intuition discriminate.
        -- intros [_ H]. discriminate.
Qed.

Lemma cons_eq_app_cases {A : Type} (a x : A) (l before rest : list A) :
  a :: l = before ++ x :: rest ->
  (before = [] /\ a = x /\ l = rest)
  \/ exists mid, before = a :: mid /\ l = mid ++ x :: rest.
Proof.
  destruct before as [|b before]; cbn; intros [= -> ->]; eauto.
Qed.

Lemma on_lines_progress_detail st lines before p s rest :
  emitted (on_lines st lines) = before ++ progress p s :: rest ->
  exists before' dl tl pp,
    before = before' ++ [downloaded_songs_signal (c_int dl)]
    /\ 0 < tl
    /\ s = status_text dl tl
    /\ progress_percentage dl tl = Ok pp
    /\ p = c_int pp
    /\ (In (total_songs_signal (c_int tl)) before' \/ tl = total_songs st).
Proof.
  revert st before; induction lines as [|line lines IH];
    intros st before Heq.
  - cbn in Heq. now destruct before.
  - rewrite on_lines_cons in Heq. revert Heq.
    on_line_cases st line; intros Heq.
    + do 3 peel_signal Heq.
      apply IH in Heq as (b' & dl & tl & pp & -> & Ht & Hs & Hp & Hc & Hin).
      exists (log (strip line) :: total_songs_signal (c_int total)
                :: log ("Total songs found: " ++ str total)
                :: b'), dl, tl, pp.
      repeat split; try assumption. left.
      cbn [total_songs] in Hin. destruct Hin as [Hin| ->]; cbn; auto.
    + peel_signal Heq. now destruct mid.
    + do 2 peel_signal Heq.
      apply cons_eq_app_cases in Heq
        as [(-> & E & _)|(mid1 & -> & Heq)].
      * injection E as <- <-.
        exists [log (strip line)], (downloaded_songs st + 1),
          (total_songs st), p0.
        apply Z.ltb_lt in Hpos. repeat split; auto.
      * apply IH in Heq as (b' & dl & tl & pp & -> & Ht & Hs & Hp & Hc & Hin).
        exists (log (strip line)
                  :: downloaded_songs_signal (c_int (downloaded_songs st + 1))
                  :: progress (c_int p0)
                       ("Downloading " ++ str (downloaded_songs st + 1)
                          ++ "/" ++ str (total_songs st))
                  :: b'), dl, tl, pp.
        repeat split; try assumption.
        cbn [total_songs] in Hin. destruct Hin as [Hin|Hin]; cbn; auto.
    + do 2 peel_signal Heq. now destruct mid0.
    + do 2 peel_signal Heq.
      apply IH in Heq as (b' & dl & tl & pp & -> & Ht & Hs & Hp & Hc & Hin).
      exists (log (strip line)
                :: downloaded_songs_signal (c_int (downloaded_songs st + 1))
                :: b'),
        dl, tl, pp.
      repeat split; try assumption.
      cbn [total_songs] in Hin. destruct Hin as [Hin|Hin]; cbn; auto.
    + peel_signal Heq.
      apply IH in Heq as (b' & dl & tl & pp & -> & Ht & Hs & Hp & Hc & Hin).
      exists (log (strip line) :: b'), dl, tl, pp.
      repeat split; try assumption.
      destruct Hin as [Hin|Hin]; cbn; auto.
Qed.

(** Every [progress] of a run of the loop comes right after the
    [downloaded_songs_signal] of the same line; its status names the
    counter, which that signal carries, and a positive total that a
    [total_songs_signal] has carried before, and its value is, as a C
    [int], what line 88 gives for the two. *)
Theorem progress_follows_downloaded
        (lines : list string) (before rest : list signal)
        (p : Z) (s : string) :
  emitted (on_lines fresh lines) = before ++ progress p s :: rest ->
  exists before' d t pp,
    before = before' ++ [downloaded_songs_signal (c_int d)]
    /\ In (total_songs_signal (c_int t)) before'
    /\ 0 < t
    /\ s = status_text d t
    /\ progress_percentage d t = Ok pp
    /\ p = c_int pp.
Proof.
  intros Heq.
  apply on_lines_progress_detail in Heq
    as (b' & d & t & pp & -> & Ht & Hs & Hp & Hc & Hin).
  exists b', d, t, pp. repeat split; try assumption.
  destruct Hin as [Hin| ->]; [ assumption | ]. cbn in Ht. lia.
Qed.

Lemma progress_follows_downloaded_witness :
  exists before' d t pp,
    [log playlist_line; total_songs_signal 23; log "Total songs found: 23";
     log song_line; downloaded_songs_signal 1]
    = before' ++ [downloaded_songs_signal (c_int d)]
    /\ In (total_songs_signal (c_int t)) before'
    /\ 0 < t
    /\ "Downloading 1/23" = status_text d t
    /\ progress_percentage d t = Ok pp
    /\ 4 = c_int pp.
Proof.
  apply (progress_follows_downloaded
           [playlist_line; song_line; song_line] _
           [log song_line; downloaded_songs_signal 2;
            progress 8 "Downloading 2/23"]
           4 "Downloading 1/23").
  vm_compute. reflexivity.
Defined.

(** ** Rounding is monotone *)


















Lemma progress_values_app l1 l2 :
  progress_values (l1 ++ l2) = progress_values l1 ++ progress_values l2.
Proof. apply flat_map_app. Qed.




Example percentages_of_7_songs :
  progress_values
    (emitted (on_lines fresh ("Found 7 songs in x" :: repeat song_line 7)))
  = [14; 28; 42; 57; 71; 85; 100].
Proof. vm_compute; reflexivity. Qed.

(** ** The percentage at the end *)

Lemma ilog2_same t : 0 < t -> Float.ilog2 t t = 0.
Proof.
  intros Ht. unfold Float.ilog2. rewrite Z.sub_diag. cbn.
  now rewrite Z.ltb_irrefl.
Qed.

Lemma round_same t :
  0 < t -> Float.round t t = Some (Float.Finite (2 ^ 52) (- 52)).
Proof.
  intros Ht. unfold Float.round.
  destruct (Z.eqb_spec t 0) as [|_]; [ lia | ].
  rewrite (Z.abs_eq t), (Z.sgn_pos t), ilog2_same by lia.
  change (Z.max (0 - (Float.prec - 1)) Float.emin) with (- 52).
  change (Z.max 0 (- - 52)) with 52. change (Z.max 0 (- 52)) with 0.
  rewrite Z.pow_0_r, Z.mul_1_r.
  assert (Hm : Float.round_half_even (t * 2 ^ 52) t = 2 ^ 52).
  { unfold Float.round_half_even.
    rewrite (Z.mul_comm t), Z.div_mul, Z.mod_mul by lia.
    destruct (Z.compare_spec (2 * 0) t); lia. }
  rewrite Hm. reflexivity.
Qed.

(** For every total, line 88 gives exactly 100 when the counter has reached
    the total. *)
Lemma progress_percentage_same t : 0 < t -> progress_percentage t t = Ok 100.
Proof.
  intros Ht. unfold progress_percentage, truediv.
  destruct (Z.eqb_spec t 0) as [|_]; [ lia | ].
  rewrite (Z.abs_eq t), (Z.sgn_pos t), Z.mul_1_l, round_same by lia.
  vm_compute. reflexivity.
Qed.

(** When a line that counts a download brings the counter to the total, the
    percentage reported is exactly 100, whatever the total. *)
Theorem last_download_reports_100 (t : Z) (line : string) :
  0 < t ->
  matches_downloaded line = true ->
  on_line {| total_songs := t; downloaded_songs := t - 1;
             total_songs_set := true |} line
  = {| after := {| total_songs := t; downloaded_songs := t;
                   total_songs_set := true |};
       emitted := [log (strip line); downloaded_songs_signal (c_int t);
                   progress 100 (status_text t t)];
       raised := None |}.
Proof.
  intros Ht Hm. unfold on_line, found_songs_match, matches_downloaded in *.
  cbn [total_songs_set total_songs downloaded_songs].
  destruct (search downloaded_pattern (strip line)); [ | discriminate ].
  replace (t - 1 + 1) with t by lia.
  rewrite (proj2 (Z.ltb_lt 0 t) Ht), progress_percentage_same by lia.
  reflexivity.
Qed.

Lemma last_download_reports_100_witness :
  on_line {| total_songs := 7; downloaded_songs := 7 - 1;
             total_songs_set := true |} song_line
  = {| after := {| total_songs := 7; downloaded_songs := 7;
                   total_songs_set := true |};
       emitted := [log (strip song_line); downloaded_songs_signal (c_int 7);
                   progress 100 (status_text 7 7)];
       raised := None |}.
Proof.
  apply (last_download_reports_100 7 song_line).
  - reflexivity.
  - reflexivity.
Defined.

(** * Further properties of the thread *)

(** A run that nobody stops emits the signals of the tracker and then one
    more, its last: [error] with the message of the exception if the loop
    raised, else [finished] for the exit status 0 and [error] with the
    message of line 98 for any other status. *)
Theorem run_without_stop (lines : list string) (status : Z) :
  run (map Line lines) [Exit status]
  = emitted (on_lines fresh lines)
    ++ [match raised (on_lines fresh lines) with
        | Some e => error e
        | None => if status =? 0 then finished else error download_failed
        end].
Proof.
  unfold run.
  rewrite <- (app_nil_r (map Line lines)), loop_lines by reflexivity.
  destruct (raised (on_lines fresh lines)); [ reflexivity | ].
  cbn. unfold report. cbn. now destruct (status =? 0).
Qed.

(** When [stop] is called after the child has terminated, the run emits
    the signals of the lines read before and nothing else: no outcome,
    whatever the exit status, and nothing for the lines and events that
    follow. *)
Theorem stop_after_exit_is_silent
        (lines : list string) (status : Z) (env later : list event) :
  raised (on_lines fresh lines) = None ->
  run (map Line lines ++ Exit status :: Stop :: env) later
  = emitted (on_lines fresh lines).
Proof.
  intros Hr. unfold run. rewrite loop_lines, Hr by reflexivity.
  change (loop started (after (on_lines fresh lines))
            (Exit status :: Stop :: env) later)
    with (loop (exit started status) (after (on_lines fresh lines))
            (Stop :: env) later).
  rewrite stop_in_loop_child_exited; cbn.
  - apply app_nil_r.
  - reflexivity.
  - discriminate.
Qed.

Lemma stop_after_exit_is_silent_witness :
  run (map Line [playlist_line; song_line]
         ++ Exit 0 :: Stop :: [Line song_line; Stop]) [Exit 1]
  = emitted (on_lines fresh [playlist_line; song_line]).
Proof.
  apply (stop_after_exit_is_silent
           [playlist_line; song_line] 0 [Line song_line; Stop] [Exit 1]).
  vm_compute. reflexivity.
Defined.

(** ** How often a run reports *)

Definition at_most_once (l : list signal) : Prop :=
  (List.length (filter is_finished l) <= 1)%nat
  /\ (List.length (filter is_error l) <= 1)%nat.

Lemma on_line_no_outcome st line :
  filter is_outcome (emitted (on_line st line)) = [].
Proof. on_line_cases st line; reflexivity. Qed.

Lemma not_outcome_not_finished l :
  filter is_outcome l = [] ->
  filter is_finished l = [] /\ filter is_error l = [].
Proof.
  induction l as [|s l IH]; [ now split | ].
  cbn. destruct s; cbn; try discriminate; exact IH.
Qed.

Lemma wait_quiet self env :
  _is_running self = false ->
  process self = false \/ child self <> None ->
  wait self env = [].
Proof.
  revert self; induction env as [|[line|status|] env IH];
    intros self Hr Hq; cbn [wait].
  - unfold report. rewrite Hr. now destruct (child self).
  - now apply IH.
  - apply IH.
    + unfold exit. now destruct (child self).
    + right. unfold exit. destruct (child self) eqn:E; cbn; congruence.
  - unfold stop. destruct Hq as [Hq|Hq].
    + rewrite Hq. cbn [app]. apply IH; cbn; auto.
    + destruct (child self) eqn:E; [ | congruence ].
      destruct (process self); cbn [app]; apply IH; cbn; auto;
        right; discriminate.
Qed.

Lemma wait_at_most_once self env : at_most_once (wait self env).
Proof.
  revert self; induction env as [|[line|status|] env IH]; intros self;
    cbn [wait].
  - destruct (child self) as [c|]; [ | split; cbn; lia ].
    unfold report. destruct (_is_running self); [ | split; cbn; lia ].
    destruct (c =? 0); split; cbn; lia.
  - apply IH.
  - apply IH.
  - unfold stop. destruct (process self) eqn:Hp.
    + destruct (child self) eqn:Hc.
      * rewrite wait_quiet; cbn; auto; [ split; cbn; lia | ].
        right. congruence.
      * rewrite wait_quiet; cbn; auto. split; cbn; lia.
    + rewrite wait_quiet; cbn; auto. split; cbn; lia.
Qed.

Lemma at_most_once_app l1 l2 :
  filter is_outcome l1 = [] -> at_most_once l2 -> at_most_once (l1 ++ l2).
Proof.
  intros H1 [Hf He]. apply not_outcome_not_finished in H1 as [H1f H1e].
  unfold at_most_once. now rewrite !filter_app, H1f, H1e.
Qed.

Lemma after_loop_at_most_once self env : at_most_once (after_loop self env).
Proof.
  unfold after_loop. destruct (process self).
  - apply wait_at_most_once.
  - split; cbn; lia.
Qed.

(** In every run, whatever the order of the lines, of the exit of the child
    and of the calls of [stop], [finished] is emitted at most once and
    [error] at most once. *)
Theorem run_reports_at_most_once (during_loop during_wait : list event) :
  (List.length (filter is_finished (run during_loop during_wait)) <= 1)%nat
  /\ (List.length (filter is_error (run during_loop during_wait)) <= 1)%nat.
Proof.
  unfold run. generalize started, fresh.
  induction during_loop as [|[line|status|] env IH]; intros self st;
    cbn [loop].
  - apply after_loop_at_most_once.
  - destruct (_is_running self); [ | apply after_loop_at_most_once ].
    apply at_most_once_app; [ apply on_line_no_outcome | ].
    destruct (raised (on_line st line)); [ split; cbn; lia | apply IH ].
  - apply IH.
  - unfold stop. destruct (process self) eqn:Hp.
    + destruct (child self) eqn:Hc.
      * rewrite loop_stopped by (cbn; congruence). split; cbn; lia.
      * rewrite loop_after_kill by reflexivity. split; cbn; lia.
    + cbn [app]. rewrite loop_after_kill by (cbn; auto). split; cbn; lia.
Qed.

Import Gui.

(** * The window *)

Lemma start_download_cases
      (isdir : string -> bool) (spotdl : option string) (w : window) :
  let r := start_download isdir spotdl w in
  let w' := fst (fst r) in
  let valid :=
    negb (String.eqb (strip (url_entry w)) EmptyString)
    && negb (String.eqb (strip (output_entry w)) EmptyString)
    && isdir (strip (output_entry w))
    && match spotdl with Some _ => true | None => false end in
  if valid then
    r = (w', [],
         Some {| url := strip (url_entry w);
                 output_dir := strip (output_entry w);
                 concurrent_downloads := 5 |})
    /\ download_thread w' = snd r
    /\ download_button w' = false /\ cancel_button w' = true
    /\ progress_bar w' = 0
    /\ status_label w' = "Starting download..."%string
    /\ log_view w' = []
    /\ total_songs_label w' = "Total Songs: 0"%string
    /\ downloaded_songs_label w' = "Downloaded Songs: 0"%string
  else
    snd r = None
    /\ List.length (snd (fst r)) = 1%nat
    /\ download_button w' = download_button w
    /\ cancel_button w' = cancel_button w
    /\ progress_bar w' = progress_bar w
    /\ status_label w' = status_label w
    /\ total_songs_label w' = total_songs_label w
    /\ downloaded_songs_label w' = downloaded_songs_label w
    /\ download_thread w' = download_thread w.
Proof.
  cbv zeta. unfold start_download.
  destruct (strip (url_entry w)) as [|a u] eqn:Hu; cbn [String.eqb negb andb].
  - now repeat split.
  - destruct (strip (output_entry w)) as [|b o] eqn:Ho;
      cbn [String.eqb negb andb].
    + now repeat split.
    + destruct (isdir (String b o)); cbn [negb andb].
      * destruct spotdl as [stdout|]; cbn; now repeat split.
      * now repeat split.
Qed.

(** [start_download] starts a thread exactly when the stripped URL and the
    stripped directory are not empty, the directory exists and [spotdl] is
    found.  Then it shows no dialog, gives the thread the stripped texts
    and 5 downloads at a time, and resets the window: the log view is
    empty, also of the version line just appended.  Otherwise it shows one
    dialog and leaves the buttons, the progress bar, the labels and the
    thread of the window as they are. *)
Theorem start_download_checks
        (isdir : string -> bool) (spotdl : option string) (w : window) :
  let r := start_download isdir spotdl w in
  let w' := fst (fst r) in
  let valid :=
    negb (String.eqb (strip (url_entry w)) EmptyString)
    && negb (String.eqb (strip (output_entry w)) EmptyString)
    && isdir (strip (output_entry w))
    && match spotdl with Some _ => true | None => false end in
  if valid then
    r = (w', [],
         Some {| url := strip (url_entry w);
                 output_dir := strip (output_entry w);
                 concurrent_downloads := 5 |})
    /\ download_thread w' = snd r
    /\ download_button w' = false /\ cancel_button w' = true
    /\ progress_bar w' = 0
    /\ status_label w' = "Starting download..."%string
    /\ log_view w' = []
    /\ total_songs_label w' = "Total Songs: 0"%string
    /\ downloaded_songs_label w' = "Downloaded Songs: 0"%string
  else
    snd r = None
    /\ List.length (snd (fst r)) = 1%nat
    /\ download_button w' = download_button w
    /\ cancel_button w' = cancel_button w
    /\ progress_bar w' = progress_bar w
    /\ status_label w' = status_label w
    /\ total_songs_label w' = total_songs_label w
    /\ downloaded_songs_label w' = downloaded_songs_label w
    /\ download_thread w' = download_thread w.
Proof. apply start_download_cases. Qed.

Lemma deliver_all_app w l1 l2 :
  deliver_all w (l1 ++ l2)
  = let (w1, d1) := deliver_all w l1 in
    let (w2, d2) := deliver_all w1 l2 in
    (w2, d1 ++ d2).
Proof.
  revert w; induction l1 as [|s l1 IH]; intros w; cbn [app deliver_all].
  - now destruct (deliver_all w l2).
  - destruct (deliver w s) as [w1 d1]. rewrite IH.
    destruct (deliver_all w1 l1) as [w2 d2].
    destruct (deliver_all w2 l2) as [w3 d3]. now rewrite app_assoc.
Qed.

Lemma log_texts_app l1 l2 : log_texts (l1 ++ l2) = log_texts l1 ++ log_texts l2.
Proof. apply flat_map_app. Qed.

Lemma deliver_on_line w st line :
  shows w st ->
  let r := deliver_all w (emitted (on_line st line)) in
  snd r = []
  /\ shows (fst r) (after (on_line st line))
  /\ log_view (fst r) = log_view w ++ log_texts (emitted (on_line st line))
  /\ download_button (fst r) = download_button w
  /\ cancel_button (fst r) = cancel_button w.
Proof.
  intros [Ht Hd]. unfold shows.
  on_line_cases st line; cbn -[str String.append c_int]; repeat split;
    try assumption; try reflexivity.
  all: try now rewrite <- app_assoc.
Qed.

Lemma deliver_on_lines w st lines :
  shows w st ->
  let r := deliver_all w (emitted (on_lines st lines)) in
  snd r = []
  /\ shows (fst r) (after (on_lines st lines))
  /\ log_view (fst r) = log_view w ++ log_texts (emitted (on_lines st lines))
  /\ download_button (fst r) = download_button w
  /\ cancel_button (fst r) = cancel_button w.
Proof.
  revert w st; induction lines as [|line rest IH]; intros w st Hs; cbv zeta.
  - cbn. rewrite app_nil_r. destruct Hs. now repeat split.
  - rewrite on_lines_cons.
    destruct (deliver_on_line w st line Hs) as (H1 & H2 & H3 & H4 & H5).
    destruct (raised (on_line st line));
      [ exact (conj H1 (conj H2 (conj H3 (conj H4 H5)))) | ].
    cbn [emitted after]. rewrite deliver_all_app, log_texts_app.
    destruct (deliver_all w (emitted (on_line st line))) as [w1 d1].
    cbn [fst snd] in *.
    destruct (IH w1 _ H2) as (G1 & G2 & G3 & G4 & G5).
    destruct (deliver_all w1 (emitted (on_lines _ rest))) as [w2 d2].
    cbn [fst snd] in *. subst d1 d2.
    repeat split; try apply G2; try congruence.
    now rewrite G3, H3, app_assoc.
Qed.

(** The window that has started a download and then received the signals
    of a run of the loop, in their order, has shown no dialog; its log view
    holds the texts of the [log] signals, in their order, and nothing else;
    its labels show the final total and the final counter, as the signals
    carry them; and Cancel is still the enabled button. *)
Theorem window_shows_the_run
        (isdir : string -> bool) (spotdl : option string)
        (w w' : window) (thread : job) (lines : list string) :
  start_download isdir spotdl w = (w', [], Some thread) ->
  let o := on_lines fresh lines in
  let r := deliver_all w' (emitted o) in
  snd r = []
  /\ log_view (fst r) = log_texts (emitted o)
  /\ total_songs_label (fst r)
     = ("Total Songs: " ++ str (c_int (total_songs (after o))))%string
  /\ downloaded_songs_label (fst r)
     = ("Downloaded Songs: "
          ++ str (c_int (downloaded_songs (after o))))%string
  /\ download_button (fst r) = false
  /\ cancel_button (fst r) = true.
Proof.
  intros Hs. cbv zeta.
  pose proof (start_download_cases isdir spotdl w) as Hc. cbv zeta in Hc.
  rewrite Hs in Hc. cbn [fst snd] in Hc.
  destruct (_ && _) in Hc.
  - destruct Hc as (_ & _ & Hb & Hcb & _ & _ & Hl & Ht & Hd).
    destruct (deliver_on_lines w' fresh lines) as (H1 & [H2 H2'] & H3 & H4 & H5).
    { split; [ exact Ht | exact Hd ]. }
    rewrite Hl in H3. repeat split; try assumption; congruence.
  - destruct Hc as [Hc _]. discriminate.
Qed.

Lemma window_shows_the_run_witness :
  let w := set_output_entry (set_url_entry initUI " https://x ") "/music" in
  let o := on_lines fresh [playlist_line; song_line; "x"] in
  let r := deliver_all (fst (fst (start_download exists_dir (Some "4.2") w)))
                       (emitted o) in
  snd r = []
  /\ log_view (fst r) = log_texts (emitted o)
  /\ total_songs_label (fst r)
     = ("Total Songs: " ++ str (c_int (total_songs (after o))))%string
  /\ downloaded_songs_label (fst r)
     = ("Downloaded Songs: "
          ++ str (c_int (downloaded_songs (after o))))%string
  /\ download_button (fst r) = false
  /\ cancel_button (fst r) = true.
Proof.
  apply (window_shows_the_run
           exists_dir (Some "4.2")
           (set_output_entry (set_url_entry initUI " https://x ") "/music")
           _ {| url := "https://x"; output_dir := "/music";
                concurrent_downloads := 5 |}
           [playlist_line; song_line; "x"]).
  reflexivity.
Defined.

(** ** What holds of the window at any time *)

Lemma deliver_ok w s : window_ok w -> window_ok (fst (deliver w s)).
Proof.
  intros (Hb & Hp & Ht). destruct s; cbn; unfold window_ok; cbn;
    repeat split; try assumption; try lia; try discriminate.
  - destruct ((value <? 0) || (100 <? value)) eqn:E; [ lia | ].
    apply orb_false_elim in E as [E1 E2]. apply Z.ltb_ge in E1. lia.
  - destruct ((value <? 0) || (100 <? value)) eqn:E; [ lia | ].
    apply orb_false_elim in E as [E1 E2]. apply Z.ltb_ge in E2. lia.
Qed.

Lemma deliver_all_ok w l : window_ok w -> window_ok (fst (deliver_all w l)).
Proof.
  revert w; induction l as [|s l IH]; intros w Hw; cbn [deliver_all].
  - exact Hw.
  - pose proof (deliver_ok w s Hw) as H1.
    destruct (deliver w s) as [w1 d1]. cbn [fst] in H1.
    pose proof (IH w1 H1) as H2.
    now destruct (deliver_all w1 l) as [w2 d2].
Qed.

Lemma act_ok w a : window_ok w -> window_ok (act w a).
Proof.
  intros Hw. destruct a as [text|text|directory|isdir spotdl
                            |isRunning yes thread|isRunning yes thread|s];
    cbn [act].
  - exact Hw.
  - exact Hw.
  - unfold browse_directory. now destruct directory.
  - pose proof (start_download_cases isdir spotdl w) as Hc.
    cbv zeta in Hc. destruct Hw as (Hb & Hp & Ht).
    destruct (_ && _) in Hc.
    + destruct Hc as (Hr & Hth & Hd & Hcb & Hpr & _).
      unfold window_ok. rewrite Hd, Hcb, Hpr, Hth, Hr.
      repeat split; try lia. intros _. discriminate.
    + destruct Hc as (_ & _ & Hd & Hcb & Hpr & _ & _ & _ & Hth).
      unfold window_ok. rewrite Hd, Hcb, Hpr, Hth. now repeat split.
  - unfold cancel_download. destruct (download_thread w) eqn:Hth;
      [ | exact Hw ].
    destruct isRunning; [ | exact Hw ]. destruct yes; [ | exact Hw ].
    pose proof (deliver_all_ok w (snd (Thread.stop thread)) Hw) as H1.
    destruct (Thread.stop thread) as [thread' out]. cbn [snd] in H1.
    destruct (deliver_all w out) as [w1 d1]. cbn [fst] in *.
    destruct H1 as (Hb & Hp & Ht). unfold window_ok. cbn.
    repeat split; try lia; try discriminate.
  - unfold closeEvent. destruct (download_thread w) eqn:Hth;
      [ | exact Hw ].
    destruct isRunning; [ | exact Hw ]. destruct yes; [ | exact Hw ].
    pose proof (deliver_all_ok w (snd (Thread.stop thread)) Hw) as H1.
    destruct (Thread.stop thread) as [thread' out]. cbn [snd] in H1.
    now destruct (deliver_all w out) as [w1 d1].
  - now apply deliver_ok.
Qed.

Lemma acts_ok w l : window_ok w -> window_ok (acts w l).
Proof.
  unfold acts. revert w; induction l as [|a l IH]; intros w Hw; cbn.
  - exact Hw.
  - apply IH. now apply act_ok.
Qed.

Lemma initUI_ok : window_ok initUI.
Proof. unfold window_ok. cbn. repeat split; try lia; try discriminate. Qed.

(** Whatever the user does and whatever signals arrive, in whatever order,
    exactly one of the buttons Download and Cancel is enabled, and Cancel
    only when a thread has been created. *)
Theorem one_button_enabled (l : list action) :
  download_button (acts initUI l) = negb (cancel_button (acts initUI l))
  /\ (cancel_button (acts initUI l) = true ->
      download_thread (acts initUI l) <> None).
Proof.
  destruct (acts_ok initUI l initUI_ok) as (Hb & _ & Ht). now split.
Qed.


(** ** Cancel while the child runs *)


